(** * currender: camera models and renderer readiness

    A shallow embedding of [include/currender/camera.h] (the abstract
    [Camera], [PinholeCamera] and [OrthoCamera]) and of the readiness
    protocol of [Renderer] declared in [include/renderer.h].

    Conventions of the embedding.
    - [int] is a 32-bit two's complement integer, carried as [Z]; the
      products and sums the code forms on [int] are wrapped by [wrap_int].
    - [float] and [double] are idealised as the real numbers [R]: every
      cast between them is the identity and [static_cast<float>(int)] is
      [IZR].  Rounding, infinities and NaN are outside the model.
    - [std::vector<Eigen::Vector3f>] is a [list Vector3f]; [resize] throws
      [std::length_error] on a negative [int] size (it is converted to a
      huge [size_t]) and [operator[]] outside the vector is a fault.  The
      elements [resize] appends are left uninitialised by Eigen; they are
      carried as the zero vector until [InitRayTable] overwrites them.
    - A member function that may throw returns a [result]. *)

From Stdlib Require Import ZArith Reals Lra Lia.
From stdpp Require Import base list.

Local Open Scope Z_scope.

(** ** Faults and the error monad *)

Inductive fault : Type :=
  | LengthError   (* std::length_error thrown by std::vector::resize *)
  | OutOfRange.   (* operator[] outside the bounds of a vector *)

Inductive result (A : Type) : Type :=
  | Ok (a : A)
  | Raise (e : fault).
Arguments Ok {A} a.
Arguments Raise {A} e.

#[global] Instance result_ret : MRet result := fun A a => Ok a.
#[global] Instance result_bind : MBind result := fun A B k m =>
  match m with
  | Ok a => k a
  | Raise e => Raise e
  end.

(** ** Machine integers *)

Definition int_max : Z := 2 ^ 31 - 1.

Definition wrap_int (z : Z) : Z := (z + 2 ^ 31) mod 2 ^ 32 - 2 ^ 31.

(** ** Eigen vectors, matrices and affine transforms *)

Record Vector2f : Type := vec2 { x2 : R; y2 : R }.
Record Vector3f : Type := vec3 { x3 : R; y3 : R; z3 : R }.

(** Entry [mIJ] is row [I], column [J]. *)
Record Matrix3f : Type := mat3 {
  m00 : R; m01 : R; m02 : R;
  m10 : R; m11 : R; m12 : R;
  m20 : R; m21 : R; m22 : R }.

(** [Eigen::Affine3d]: the 4x4 matrix [[linear, translation], [0 0 0 1]],
    of which [block<3,3>(0,0)] and [block<3,1>(0,3)] are kept. *)
Record Affine3d : Type := affine { linear : Matrix3f; translation : Vector3f }.

Module Eigen.
Local Open Scope R_scope.

Definition Zero : Vector3f := vec3 0 0 0.

Definition add (a b : Vector3f) : Vector3f :=
  vec3 (x3 a + x3 b) (y3 a + y3 b) (z3 a + z3 b).

Definition sub (a b : Vector3f) : Vector3f :=
  vec3 (x3 a - x3 b) (y3 a - y3 b) (z3 a - z3 b).

Definition neg (a : Vector3f) : Vector3f :=
  vec3 (- x3 a) (- y3 a) (- z3 a).

(** [s * v] *)
Definition scale (s : R) (v : Vector3f) : Vector3f :=
  vec3 (s * x3 v) (s * y3 v) (s * z3 v).

(** [v /= s] *)
Definition div (v : Vector3f) (s : R) : Vector3f :=
  vec3 (x3 v / s) (y3 v / s) (z3 v / s).

Definition dot (a b : Vector3f) : R :=
  x3 a * x3 b + y3 a * y3 b + z3 a * z3 b.

Definition squaredNorm (v : Vector3f) : R := dot v v.

Definition norm (v : Vector3f) : R := sqrt (squaredNorm v).

(** [MatrixBase::normalize]: divides by the norm when the squared norm
    is positive and leaves the vector alone otherwise. *)
Definition normalize (v : Vector3f) : Vector3f :=
  let z := squaredNorm v in
  if Rlt_dec 0 z then div v (sqrt z) else v.

Definition col (m : Matrix3f) (j : Z) : Vector3f :=
  match j with
  | 0%Z => vec3 (m00 m) (m10 m) (m20 m)
  | 1%Z => vec3 (m01 m) (m11 m) (m21 m)
  | _ => vec3 (m02 m) (m12 m) (m22 m)
  end.

(** [m * v] *)
Definition mul (m : Matrix3f) (v : Vector3f) : Vector3f :=
  vec3 (m00 m * x3 v + m01 m * y3 v + m02 m * z3 v)
       (m10 m * x3 v + m11 m * y3 v + m12 m * z3 v)
       (m20 m * x3 v + m21 m * y3 v + m22 m * z3 v).

Definition Identity3 : Matrix3f := mat3 1 0 0 0 1 0 0 0 1.

Definition Identity : Affine3d := affine Identity3 Zero.

Definition determinant (m : Matrix3f) : R :=
  m00 m * (m11 m * m22 m - m12 m * m21 m)
  - m01 m * (m10 m * m22 m - m12 m * m20 m)
  + m02 m * (m10 m * m21 m - m11 m * m20 m).

(** General 3x3 inverse by cofactors, as Eigen computes it for fixed
    size 3. *)
Definition inverse3 (m : Matrix3f) : Matrix3f :=
  let d := / determinant m in
  mat3 ((m11 m * m22 m - m12 m * m21 m) * d)
       ((m02 m * m21 m - m01 m * m22 m) * d)
       ((m01 m * m12 m - m02 m * m11 m) * d)
       ((m12 m * m20 m - m10 m * m22 m) * d)
       ((m00 m * m22 m - m02 m * m20 m) * d)
       ((m02 m * m10 m - m00 m * m12 m) * d)
       ((m10 m * m21 m - m11 m * m20 m) * d)
       ((m01 m * m20 m - m00 m * m21 m) * d)
       ((m00 m * m11 m - m01 m * m10 m) * d).

(** [Transform<double,3,Affine>::inverse()] *)
Definition inverse (a : Affine3d) : Affine3d :=
  let li := inverse3 (linear a) in
  affine li (neg (mul li (translation a))).
End Eigen.

(** ** std::vector<Eigen::Vector3f> *)

Definition vector_resize (n : Z) (v : list Vector3f) : result (list Vector3f) :=
  if n <? 0 then Raise LengthError
  else Ok (resize (Z.to_nat n) Eigen.Zero v).

(** [v[i] = a] *)
Definition vector_set (v : list Vector3f) (i : Z) (a : Vector3f)
  : result (list Vector3f) :=
  if (0 <=? i) && (i <? Z.of_nat (length v))
  then Ok (<[Z.to_nat i := a]> v)
  else Raise OutOfRange.

(** [v[i]] *)
Definition vector_get (v : list Vector3f) (i : Z) : result Vector3f :=
  if i <? 0 then Raise OutOfRange
  else match v !! Z.to_nat i with
       | Some a => Ok a
       | None => Raise OutOfRange
       end.

(** [for (int i = lo; i < hi; i++) body] threading a state and stopping at
    the first fault. *)
Fixpoint for_each {S : Type} (ixs : list Z) (body : Z -> S -> result S) (s : S)
  : result S :=
  match ixs with
  | [] => Ok s
  | i :: ixs => s' ← body i s; for_each ixs body s'
  end.

Definition for_range {S : Type} (lo hi : Z) (body : Z -> S -> result S) (s : S)
  : result S :=
  for_each (seqZ lo (hi - lo)) body s.

(** ** Angle conversion *)

(** Modelled from the spec: [radians<float>] of [currender/common.h], which
    is not part of the sources at hand.  The field of view is given in
    degrees (the spec bounds it by 180) while [std::tan] takes radians. *)
Definition radians (deg : R) : R := (deg * PI / 180)%R.

(** Modelled from the spec: [degrees<float>] of [currender/common.h], the
    inverse conversion, used by [fov_x] and [fov_y]. *)
Definition degrees (rad : R) : R := (rad * 180 / PI)%R.

(** ** class Camera *)

Module Camera.
Record t : Type := mk {
  width_ : Z;
  height_ : Z;
  c2w_ : Affine3d;
  w2c_ : Affine3d;
  c2w_R_f_ : Matrix3f;
  c2w_t_f_ : Vector3f;
  x_direc_ : Vector3f;
  y_direc_ : Vector3f;
  z_direc_ : Vector3f;
  w2c_R_f_ : Matrix3f;
  w2c_t_f_ : Vector3f }.

Definition width (c : t) : Z := width_ c.
Definition height (c : t) : Z := height_ c.
Definition c2w (c : t) : Affine3d := c2w_ c.
Definition w2c (c : t) : Affine3d := w2c_ c.

Definition set_size (width height : Z) (c : t) : t :=
  mk width height (c2w_ c) (w2c_ c) (c2w_R_f_ c) (c2w_t_f_ c)
     (x_direc_ c) (y_direc_ c) (z_direc_ c) (w2c_R_f_ c) (w2c_t_f_ c).

(** [set_c2w] assigns every member but [width_] and [height_]. *)
Definition set_c2w (c2w : Affine3d) (c : t) : t :=
  let w2c := Eigen.inverse c2w in
  mk (width_ c) (height_ c) c2w w2c
     (linear c2w) (translation c2w)
     (Eigen.col (linear c2w) 0)
     (Eigen.col (linear c2w) 1)
     (Eigen.col (linear c2w) 2)
     (linear w2c) (translation w2c).

(** [Camera(int width, int height, const Eigen::Affine3d& c2w)]: the
    initialiser list sets the size and the pose, the body calls
    [Camera::set_c2w], which assigns all remaining members. *)
Definition new_pose (width height : Z) (c2w : Affine3d) : t :=
  set_c2w c2w
    (mk width height c2w (Eigen.inverse c2w)
        Eigen.Identity3 Eigen.Zero Eigen.Zero Eigen.Zero Eigen.Zero
        Eigen.Identity3 Eigen.Zero).

(** [Camera(int width, int height)] *)
Definition new_size (width height : Z) : t :=
  new_pose width height Eigen.Identity.

(** [Camera()] *)
Definition new : t := new_pose (-1) (-1) Eigen.Identity.
End Camera.

(** ** The four per-pixel tables and their initialisation

    [PinholeCamera::InitRayTable] and [OrthoCamera::InitRayTable] are the
    same text; they differ in the continuous accessors the loop body
    calls.  The accessors are [const] members that read the size, the pose
    and the intrinsics but none of the tables, so they are passed to the
    loop as functions of the sub-pixel coordinate. *)

Record RayTables : Type := tables {
  org_ray_c_table_ : list Vector3f;
  org_ray_w_table_ : list Vector3f;
  ray_c_table_ : list Vector3f;
  ray_w_table_ : list Vector3f }.

Definition no_tables : RayTables := tables [] [] [] [].

Section InitRayTable.
Variables width_ height_ : Z.
Variables org_ray_c org_ray_w ray_c ray_w : R -> R -> Vector3f.

(** Index [y * width_ + x], computed on [int]. *)
Definition pixel_index (x y : Z) : Z := wrap_int (wrap_int (y * width_) + x).

(** Body of the inner loop. *)
Definition fill_pixel (x y : Z) (tb : RayTables) : result RayTables :=
  let i := pixel_index x y in
  oc ← vector_set (org_ray_c_table_ tb) i (org_ray_c (IZR x) (IZR y));
  ow ← vector_set (org_ray_w_table_ tb) i (org_ray_w (IZR x) (IZR y));
  rc ← vector_set (ray_c_table_ tb) i (ray_c (IZR x) (IZR y));
  rw ← vector_set (ray_w_table_ tb) i (ray_w (IZR x) (IZR y));
  mret (tables oc ow rc rw).

Definition init_ray_table (tb : RayTables) : result RayTables :=
  let n := wrap_int (width_ * height_) in
  oc ← vector_resize n (org_ray_c_table_ tb);
  ow ← vector_resize n (org_ray_w_table_ tb);
  rc ← vector_resize n (ray_c_table_ tb);
  rw ← vector_resize n (ray_w_table_ tb);
  for_range 0 height_
    (fun y => for_range 0 width_ (fun x => fill_pixel x y))
    (tables oc ow rc rw).
End InitRayTable.

(** ** class PinholeCamera *)

Module PinholeCamera.
Local Open Scope R_scope.

Record t : Type := mk {
  base : Camera.t;
  principal_point_ : Vector2f;
  focal_length_ : Vector2f;
  ray_tables : RayTables }.

Definition width (c : t) : Z := Camera.width_ (base c).
Definition height (c : t) : Z := Camera.height_ (base c).
Definition principal_point (c : t) : Vector2f := principal_point_ c.
Definition focal_length (c : t) : Vector2f := focal_length_ c.

(** *** Projection and back-projection *)

(** [Project(const Vector3f& camera_p, Vector3f* image_p)] *)
Definition Project3 (c : t) (camera_p : Vector3f) : Vector3f :=
  vec3 (x2 (focal_length_ c) / z3 camera_p * x3 camera_p
        + x2 (principal_point_ c))
       (y2 (focal_length_ c) / z3 camera_p * y3 camera_p
        + y2 (principal_point_ c))
       (z3 camera_p).

(** [Project(const Vector3f& camera_p, Vector2f* image_p)] *)
Definition Project2 (c : t) (camera_p : Vector3f) : Vector2f :=
  vec2 (x2 (focal_length_ c) / z3 camera_p * x3 camera_p
        + x2 (principal_point_ c))
       (y2 (focal_length_ c) / z3 camera_p * y3 camera_p
        + y2 (principal_point_ c)).

(** [Project(const Vector3f& camera_p, Vector2f* image_p, float* d)] *)
Definition Project2d (c : t) (camera_p : Vector3f) : Vector2f * R :=
  (vec2 (x2 (focal_length_ c) / z3 camera_p * x3 camera_p
         + x2 (principal_point_ c))
        (y2 (focal_length_ c) / z3 camera_p * y3 camera_p
         + y2 (principal_point_ c)),
   z3 camera_p).

(** [Unproject(const Vector3f& image_p, Vector3f* camera_p)] *)
Definition Unproject3 (c : t) (image_p : Vector3f) : Vector3f :=
  vec3 ((x3 image_p - x2 (principal_point_ c)) * z3 image_p
        / x2 (focal_length_ c))
       ((y3 image_p - y2 (principal_point_ c)) * z3 image_p
        / y2 (focal_length_ c))
       (z3 image_p).

(** [Unproject(const Vector2f& image_p, float d, Vector3f* camera_p)] *)
Definition Unproject2d (c : t) (image_p : Vector2f) (d : R) : Vector3f :=
  vec3 ((x2 image_p - x2 (principal_point_ c)) * d / x2 (focal_length_ c))
       ((y2 image_p - y2 (principal_point_ c)) * d / y2 (focal_length_ c))
       d.

(** *** Continuous accessors ([float] coordinates) *)

Definition org_ray_c_f (c : t) (x y : R) : Vector3f := vec3 0 0 0.

Definition org_ray_w_f (c : t) (x y : R) : Vector3f :=
  Camera.c2w_t_f_ (base c).

Definition ray_c_f (c : t) (x y : R) : Vector3f :=
  Eigen.normalize
    (vec3 ((x - x2 (principal_point_ c)) / x2 (focal_length_ c))
          ((y - y2 (principal_point_ c)) / y2 (focal_length_ c))
          1).

Definition ray_w_f (c : t) (x y : R) : Vector3f :=
  Eigen.mul (Camera.c2w_R_f_ (base c)) (ray_c_f c x y).

(** *** Discrete accessors ([int] coordinates): table lookups *)

Definition table_index (c : t) (x y : Z) : Z := pixel_index (width c) x y.

Definition org_ray_c_i (c : t) (x y : Z) : result Vector3f :=
  vector_get (org_ray_c_table_ (ray_tables c)) (table_index c x y).

Definition org_ray_w_i (c : t) (x y : Z) : result Vector3f :=
  vector_get (org_ray_w_table_ (ray_tables c)) (table_index c x y).

Definition ray_c_i (c : t) (x y : Z) : result Vector3f :=
  vector_get (ray_c_table_ (ray_tables c)) (table_index c x y).

Definition ray_w_i (c : t) (x y : Z) : result Vector3f :=
  vector_get (ray_w_table_ (ray_tables c)) (table_index c x y).

(** *** Table initialisation and the setters *)

Definition InitRayTable (c : t) : result t :=
  tb ← init_ray_table (width c) (height c)
         (org_ray_c_f c) (org_ray_w_f c) (ray_c_f c) (ray_w_f c)
         (ray_tables c);
  mret (mk (base c) (principal_point_ c) (focal_length_ c) tb).

Definition set_size (width height : Z) (c : t) : result t :=
  InitRayTable
    (mk (Camera.set_size width height (base c))
        (principal_point_ c) (focal_length_ c) (ray_tables c)).

Definition set_c2w (c2w : Affine3d) (c : t) : result t :=
  InitRayTable
    (mk (Camera.set_c2w c2w (base c))
        (principal_point_ c) (focal_length_ c) (ray_tables c)).

Definition fov_x (c : t) : R :=
  degrees (2 * atan (IZR (width c) * 0.5 / x2 (focal_length_ c))).

Definition fov_y (c : t) : R :=
  degrees (2 * atan (IZR (height c) * 0.5 / y2 (focal_length_ c))).

Definition set_principal_point (principal_point : Vector2f) (c : t)
  : result t :=
  InitRayTable (mk (base c) principal_point (focal_length_ c) (ray_tables c)).

Definition set_focal_length (focal_length : Vector2f) (c : t) : result t :=
  InitRayTable (mk (base c) (principal_point_ c) focal_length (ray_tables c)).

Definition set_fov_x (fov_x_deg : R) (c : t) : result t :=
  let f0 := IZR (width c) * 0.5 / tan (radians fov_x_deg * 0.5) in
  InitRayTable (mk (base c) (principal_point_ c) (vec2 f0 f0) (ray_tables c)).

Definition set_fov_y (fov_y_deg : R) (c : t) : result t :=
  let f1 := IZR (height c) * 0.5 / tan (radians fov_y_deg * 0.5) in
  InitRayTable (mk (base c) (principal_point_ c) (vec2 f1 f1) (ray_tables c)).

(** *** Constructors *)

(** [PinholeCamera(int, int, const Affine3d&, const Vector2f&,
    const Vector2f&)] *)
Definition new_full (width height : Z) (c2w : Affine3d)
           (principal_point focal_length : Vector2f) : result t :=
  InitRayTable
    (mk (Camera.new_pose width height c2w) principal_point focal_length
        no_tables).

(** [PinholeCamera(int, int, const Affine3d&)] *)
Definition new_pose (width height : Z) (c2w : Affine3d) : result t :=
  new_full width height c2w (vec2 (-1) (-1)) (vec2 (-1) (-1)).

(** [PinholeCamera(int, int)] *)
Definition new_size (width height : Z) : result t :=
  new_pose width height Eigen.Identity.

(** [PinholeCamera()] *)
Definition new : result t := new_size (-1) (-1).

(** [PinholeCamera(int, int, const Affine3d&, float fov_y_deg)]: the
    principal point is the image centre, [set_fov_y] assigns both focal
    lengths (unset until then) and the tables are built once more. *)
Definition new_pose_fov (width height : Z) (c2w : Affine3d) (fov_y_deg : R)
  : result t :=
  let b := Camera.new_pose width height c2w in
  let pp := vec2 (IZR (Camera.width_ b) * 0.5 - 0.5)
                 (IZR (Camera.height_ b) * 0.5 - 0.5) in
  c ← set_fov_y fov_y_deg (mk b pp (vec2 0 0) no_tables);
  InitRayTable c.

(** [PinholeCamera(int, int, float fov_y_deg)] *)
Definition new_fov (width height : Z) (fov_y_deg : R) : result t :=
  new_pose_fov width height Eigen.Identity fov_y_deg.

(** The mutating members, as data. *)
Inductive mutation : Type :=
  | SetSize (width height : Z)
  | SetC2w (c2w : Affine3d)
  | SetPrincipalPoint (principal_point : Vector2f)
  | SetFocalLength (focal_length : Vector2f)
  | SetFovX (fov_x_deg : R)
  | SetFovY (fov_y_deg : R).

Definition mutate (m : mutation) (c : t) : result t :=
  match m with
  | SetSize w h => set_size w h c
  | SetC2w a => set_c2w a c
  | SetPrincipalPoint p => set_principal_point p c
  | SetFocalLength f => set_focal_length f c
  | SetFovX d => set_fov_x d c
  | SetFovY d => set_fov_y d c
  end.

(** Size the camera has once the mutation has stored its argument. *)
Definition size_after (m : mutation) (c : t) : Z * Z :=
  match m with
  | SetSize w h => (w, h)
  | _ => (width c, height c)
  end.
End PinholeCamera.

(** ** class OrthoCamera *)

Module OrthoCamera.
Local Open Scope R_scope.

Record t : Type := mk {
  base : Camera.t;
  ray_tables : RayTables }.

Definition width (c : t) : Z := Camera.width_ (base c).
Definition height (c : t) : Z := Camera.height_ (base c).

(** *** Projection and back-projection *)

Definition Project3 (c : t) (camera_p : Vector3f) : Vector3f := camera_p.

Definition Project2 (c : t) (camera_p : Vector3f) : Vector2f :=
  vec2 (x3 camera_p) (y3 camera_p).

Definition Project2d (c : t) (camera_p : Vector3f) : Vector2f * R :=
  (vec2 (x3 camera_p) (y3 camera_p), z3 camera_p).

Definition Unproject3 (c : t) (image_p : Vector3f) : Vector3f := image_p.

Definition Unproject2d (c : t) (image_p : Vector2f) (d : R) : Vector3f :=
  vec3 (x2 image_p) (y2 image_p) d.

(** *** Continuous accessors *)

(** [width_ / 2] and [height_ / 2] are [int] divisions, which truncate
    towards zero; the quotient is then converted to [float]. *)
Definition org_ray_c_f (c : t) (x y : R) : Vector3f :=
  vec3 (x - IZR (Z.quot (width c) 2)) (y - IZR (Z.quot (height c) 2)) 0.

Definition org_ray_w_f (c : t) (x y : R) : Vector3f :=
  let org := Camera.c2w_t_f_ (base c) in
  let offset_x :=
    Eigen.scale (x - IZR (width c) * 0.5) (Camera.x_direc_ (base c)) in
  let offset_y :=
    Eigen.scale (y - IZR (height c) * 0.5) (Camera.y_direc_ (base c)) in
  Eigen.add (Eigen.add org offset_x) offset_y.

Definition ray_c_f (c : t) (x y : R) : Vector3f := vec3 0 0 1.

Definition ray_w_f (c : t) (x y : R) : Vector3f := Camera.z_direc_ (base c).

(** *** Discrete accessors *)

Definition table_index (c : t) (x y : Z) : Z := pixel_index (width c) x y.

Definition org_ray_c_i (c : t) (x y : Z) : result Vector3f :=
  vector_get (org_ray_c_table_ (ray_tables c)) (table_index c x y).

Definition org_ray_w_i (c : t) (x y : Z) : result Vector3f :=
  vector_get (org_ray_w_table_ (ray_tables c)) (table_index c x y).

Definition ray_c_i (c : t) (x y : Z) : result Vector3f :=
  vector_get (ray_c_table_ (ray_tables c)) (table_index c x y).

Definition ray_w_i (c : t) (x y : Z) : result Vector3f :=
  vector_get (ray_w_table_ (ray_tables c)) (table_index c x y).

(** *** Table initialisation, setters, constructors *)

Definition InitRayTable (c : t) : result t :=
  tb ← init_ray_table (width c) (height c)
         (org_ray_c_f c) (org_ray_w_f c) (ray_c_f c) (ray_w_f c)
         (ray_tables c);
  mret (mk (base c) tb).

Definition set_size (width height : Z) (c : t) : result t :=
  InitRayTable (mk (Camera.set_size width height (base c)) (ray_tables c)).

Definition set_c2w (c2w : Affine3d) (c : t) : result t :=
  InitRayTable (mk (Camera.set_c2w c2w (base c)) (ray_tables c)).

(** [OrthoCamera(int, int, const Affine3d&)] *)
Definition new_pose (width height : Z) (c2w : Affine3d) : result t :=
  InitRayTable (mk (Camera.new_pose width height c2w) no_tables).

(** [OrthoCamera(int, int)] *)
Definition new_size (width height : Z) : result t :=
  new_pose width height Eigen.Identity.

(** [OrthoCamera()] *)
Definition new : result t := new_size (-1) (-1).

Inductive mutation : Type :=
  | SetSize (width height : Z)
  | SetC2w (c2w : Affine3d).

Definition mutate (m : mutation) (c : t) : result t :=
  match m with
  | SetSize w h => set_size w h c
  | SetC2w a => set_c2w a c
  end.

Definition size_after (m : mutation) (c : t) : Z * Z :=
  match m with
  | SetSize w h => (w, h)
  | SetC2w _ => (width c, height c)
  end.
End OrthoCamera.

(** ** class Renderer

    [include/renderer.h] declares the members and the state of [Renderer];
    the bodies, the mesh and image types and the two pipelines are not part
    of the sources at hand. *)

Inductive ColorInterpolation : Type := NN | BILINEAR.

Record RendererOption : Type := mkOption {
  use_vertex_color : bool;
  depth_scale : R;
  interp : ColorInterpolation;
  backface_culling : bool }.

(** Member initialisers of [RendererOption]. *)
Definition default_option : RendererOption := mkOption false 1%R BILINEAR true.

(** [std::shared_ptr<Camera>] pointing at one of the two camera classes. *)
Inductive AnyCamera : Type :=
  | Pinhole (c : PinholeCamera.t)
  | Ortho (c : OrthoCamera.t).

Definition camera_width (c : AnyCamera) : Z :=
  match c with
  | Pinhole c => PinholeCamera.width c
  | Ortho c => OrthoCamera.width c
  end.

Definition camera_height (c : AnyCamera) : Z :=
  match c with
  | Pinhole c => PinholeCamera.height c
  | Ortho c => OrthoCamera.height c
  end.

(** An image: its size and its pixels, row after row. *)
Record Image (A : Type) : Type := mkImage {
  img_width : Z;
  img_height : Z;
  img_data : list A }.
Arguments mkImage {A} _ _ _.
Arguments img_width {A} _.
Arguments img_height {A} _.
Arguments img_data {A} _.

Definition img_at {A : Type} (im : Image A) (x y : Z) : option A :=
  if (0 <=? x) && (x <? img_width im) && (0 <=? y) && (y <? img_height im)
  then img_data im !! Z.to_nat (y * img_width im + x)
  else None.

(** All pixels of a [width] x [height] image, row after row. *)
Definition img_init {A : Type} (width height : Z) (f : Z -> Z -> A) : Image A :=
  mkImage width height
    (mjoin ((fun y => (fun x => f x y) <$> seqZ 0 width) <$> seqZ 0 height)).

Module Renderer.
Section Pipeline.
(** The mesh, what [prepare_mesh] needs of it, and the active pipeline:
    the colour and the scaled depth of the surface seen through a
    pixel, if any. *)
Variable Mesh : Type.
Variable build : Mesh -> bool.
Variable shade :
  RendererOption -> Mesh -> AnyCamera -> Z -> Z -> option ((Z * Z * Z) * Z).

Record t : Type := mk {
  mesh_initialized_ : bool;
  camera_ : option AnyCamera;
  mesh_ : option Mesh;
  option_ : RendererOption }.

(** The three images a caller hands to [render]. *)
Record Outputs : Type := mkOutputs {
  color : Image (Z * Z * Z);
  depth : Image Z;
  mask : Image Z }.

(** [Renderer()]: member initialisers of the class. *)
Definition new : t := mk false None None default_option.

(** [explicit Renderer(const RendererOption&)] *)
Definition new_with (option : RendererOption) : t :=
  mk false None None option.

(** Modelled from the spec: [set_option], whose body is missing;
    it replaces the configuration atomically. *)
Definition set_option (option : RendererOption) (r : t) : t :=
  mk (mesh_initialized_ r) (camera_ r) (mesh_ r) option.

(** Modelled from the spec: [set_mesh], whose body is missing; the
    prepare step must run once per mesh assignment, so assigning a mesh
    leaves the renderer unprepared. *)
Definition set_mesh (mesh : Mesh) (r : t) : t :=
  mk false (camera_ r) (Some mesh) (option_ r).

(** Modelled from the spec: [prepare_mesh], whose body is missing; it
    needs a mesh, flattens it and builds the acceleration structure,
    and reports whether that succeeded. *)
Definition prepare_mesh (r : t) : t * bool :=
  match mesh_ r with
  | Some mesh =>
      if build mesh
      then (mk true (camera_ r) (mesh_ r) (option_ r), true)
      else (mk false (camera_ r) (mesh_ r) (option_ r), false)
  | None => (r, false)
  end.

(** Modelled from the spec: [set_camera], whose body is missing. *)
Definition set_camera (camera : AnyCamera) (r : t) : t :=
  mk (mesh_initialized_ r) (Some camera) (mesh_ r) (option_ r).

Definition background : Z * Z * Z := (0, 0, 0).

(** Modelled from the spec: [render], whose body is missing.  It fails
    without writing any output when the mesh is not prepared or the
    camera is not set; otherwise the three outputs are allocated at the
    camera's resolution and every pixel is handed to the pipeline; a
    pixel with no valid hit keeps depth 0, the background colour and
    mask 0. *)
Definition render (r : t) (out : Outputs) : bool * Outputs :=
  match camera_ r, mesh_ r, mesh_initialized_ r with
  | Some camera, Some mesh, true =>
      let w := camera_width camera in
      let h := camera_height camera in
      let hit := shade (option_ r) mesh camera in
      (true,
       mkOutputs
         (img_init w h (fun x y =>
            match hit x y with Some (c, _) => c | None => background end))
         (img_init w h (fun x y =>
            match hit x y with Some (_, d) => d | None => 0 end))
         (img_init w h (fun x y =>
            match hit x y with Some _ => 1 | None => 0 end)))
  | _, _, _ => (false, out)
  end.

(** Calls that change the readiness of a renderer. *)
Inductive call : Type :=
  | SetOption (option : RendererOption)
  | SetMesh (mesh : Mesh)
  | PrepareMesh
  | SetCamera (camera : AnyCamera).

Definition step (r : t) (c : call) : t :=
  match c with
  | SetOption o => set_option o r
  | SetMesh m => set_mesh m r
  | PrepareMesh => fst (prepare_mesh r)
  | SetCamera cam => set_camera cam r
  end.

Definition run (calls : list call) (r : t) : t := foldl step r calls.

Definition is_set_camera (c : call) : bool :=
  match c with SetCamera _ => true | _ => false end.

(** [PrepareMesh] calls that succeed along a history. *)
Fixpoint prepared_along (calls : list call) (r : t) : bool :=
  match calls with
  | [] => false
  | c :: calls =>
      match c with
      | PrepareMesh => snd (prepare_mesh r)
      | _ => false
      end || prepared_along calls (step r c)
  end.
End Pipeline.

Arguments mk {Mesh} _ _ _ _.
Arguments mesh_initialized_ {Mesh} _.
Arguments camera_ {Mesh} _.
Arguments mesh_ {Mesh} _.
Arguments option_ {Mesh} _.
Arguments set_option {Mesh} _ _.
Arguments set_mesh {Mesh} _ _.
Arguments prepare_mesh {Mesh} _ _.
Arguments set_camera {Mesh} _ _.
Arguments render {Mesh} _ _ _.
Arguments SetOption {Mesh} _.
Arguments SetMesh {Mesh} _.
Arguments PrepareMesh {Mesh}.
Arguments SetCamera {Mesh} _.
Arguments step {Mesh} _ _ _.
Arguments run {Mesh} _ _ _.
Arguments is_set_camera {Mesh} _.
Arguments prepared_along {Mesh} _ _ _.
End Renderer.

(** * Specification predicates *)

(** All four tables hold exactly [width * height] elements. *)
Definition tables_sized (width height : Z) (tb : RayTables) : Prop :=
  Z.of_nat (length (org_ray_c_table_ tb)) = width * height /\
  Z.of_nat (length (org_ray_w_table_ tb)) = width * height /\
  Z.of_nat (length (ray_c_table_ tb)) = width * height /\
  Z.of_nat (length (ray_w_table_ tb)) = width * height.

(** Element [j] of a table is the value of the accessor [f] at the pixel
    whose row-major index is [j]. *)
Definition entry_ok (width : Z) (f : R -> R -> Vector3f) (v : list Vector3f)
           (j : Z) : Prop :=
  v !! Z.to_nat j = Some (f (IZR (j mod width)) (IZR (j / width))).

(** Loop invariant of [init_ray_table]: the tables have their final size
    and the first [m] elements of each are written. *)
Definition filled (width height : Z)
           (org_ray_c org_ray_w ray_c ray_w : R -> R -> Vector3f)
           (m : Z) (tb : RayTables) : Prop :=
  tables_sized width height tb /\
  forall j, 0 <= j < m ->
    entry_ok width org_ray_c (org_ray_c_table_ tb) j /\
    entry_ok width org_ray_w (org_ray_w_table_ tb) j /\
    entry_ok width ray_c (ray_c_table_ tb) j /\
    entry_ok width ray_w (ray_w_table_ tb) j.

(** The table size [width * height] is a non-negative [int], so that
    [resize] neither throws nor sees a wrapped product. *)
Definition table_size_ok (width height : Z) : Prop :=
  0 <= width * height <= int_max.

(** What [init_ray_table] establishes: the tables are sized and a lookup at
    the index of an integer pixel yields the accessor's value there. *)
Definition pixels_ok (width height : Z)
           (org_ray_c org_ray_w ray_c ray_w : R -> R -> Vector3f)
           (tb : RayTables) : Prop :=
  tables_sized width height tb /\
  forall x y, 0 <= x < width -> 0 <= y < height ->
    vector_get (org_ray_c_table_ tb) (pixel_index width x y)
      = Ok (org_ray_c (IZR x) (IZR y)) /\
    vector_get (org_ray_w_table_ tb) (pixel_index width x y)
      = Ok (org_ray_w (IZR x) (IZR y)) /\
    vector_get (ray_c_table_ tb) (pixel_index width x y)
      = Ok (ray_c (IZR x) (IZR y)) /\
    vector_get (ray_w_table_ tb) (pixel_index width x y)
      = Ok (ray_w (IZR x) (IZR y)).

(** The camera's invalidation contract: every table is sized
    [width * height] and every discrete accessor agrees with the continuous
    one at the same pixel, under the current size, pose and intrinsics. *)
Definition pinhole_consistent (c : PinholeCamera.t) : Prop :=
  tables_sized (PinholeCamera.width c) (PinholeCamera.height c)
    (PinholeCamera.ray_tables c) /\
  forall x y,
    0 <= x < PinholeCamera.width c -> 0 <= y < PinholeCamera.height c ->
    PinholeCamera.org_ray_c_i c x y
      = Ok (PinholeCamera.org_ray_c_f c (IZR x) (IZR y)) /\
    PinholeCamera.org_ray_w_i c x y
      = Ok (PinholeCamera.org_ray_w_f c (IZR x) (IZR y)) /\
    PinholeCamera.ray_c_i c x y
      = Ok (PinholeCamera.ray_c_f c (IZR x) (IZR y)) /\
    PinholeCamera.ray_w_i c x y
      = Ok (PinholeCamera.ray_w_f c (IZR x) (IZR y)).

Definition ortho_consistent (c : OrthoCamera.t) : Prop :=
  tables_sized (OrthoCamera.width c) (OrthoCamera.height c)
    (OrthoCamera.ray_tables c) /\
  forall x y,
    0 <= x < OrthoCamera.width c -> 0 <= y < OrthoCamera.height c ->
    OrthoCamera.org_ray_c_i c x y
      = Ok (OrthoCamera.org_ray_c_f c (IZR x) (IZR y)) /\
    OrthoCamera.org_ray_w_i c x y
      = Ok (OrthoCamera.org_ray_w_f c (IZR x) (IZR y)) /\
    OrthoCamera.ray_c_i c x y
      = Ok (OrthoCamera.ray_c_f c (IZR x) (IZR y)) /\
    OrthoCamera.ray_w_i c x y
      = Ok (OrthoCamera.ray_w_f c (IZR x) (IZR y)).

(** The [float] copies of the pose that [Camera::set_c2w] caches agree with
    the pose itself.  Every constructor ends in [set_c2w], so every camera
    satisfies this. *)
Definition pose_cached (b : Camera.t) : Prop :=
  Camera.c2w_R_f_ b = linear (Camera.c2w_ b) /\
  Camera.c2w_t_f_ b = translation (Camera.c2w_ b) /\
  Camera.x_direc_ b = Eigen.col (linear (Camera.c2w_ b)) 0 /\
  Camera.y_direc_ b = Eigen.col (linear (Camera.c2w_ b)) 1 /\
  Camera.z_direc_ b = Eigen.col (linear (Camera.c2w_ b)) 2.

(** The projection formula in the words of the specification:
    [focal_length (.) (x, y) / z + principal_point]. *)
Definition spec_project (c : PinholeCamera.t) (p : Vector3f) : Vector2f :=
  vec2 (x2 (PinholeCamera.focal_length c) * (x3 p / z3 p)
        + x2 (PinholeCamera.principal_point c))%R
       (y2 (PinholeCamera.focal_length c) * (y3 p / z3 p)
        + y2 (PinholeCamera.principal_point c))%R.

(** The un-normalised direction through the sub-pixel [(x, y)]:
    [((x - cx) / fx, (y - cy) / fy, 1)]. *)
Definition spec_direction (c : PinholeCamera.t) (x y : R) : Vector3f :=
  vec3 ((x - x2 (PinholeCamera.principal_point c))
        / x2 (PinholeCamera.focal_length c))%R
       ((y - y2 (PinholeCamera.principal_point c))
        / y2 (PinholeCamera.focal_length c))%R
       1%R.

(** ** Sample objects *)

(** A quarter turn about the optical axis followed by a translation. *)
Definition sample_pose : Affine3d :=
  affine (mat3 0 (-1) 0 1 0 0 0 0 1) (vec3 1 2 3).

(** A 4x2 pinhole camera as its five-argument constructor assembles it
    before the tables are built. *)
Definition sample_pinhole : PinholeCamera.t :=
  PinholeCamera.mk (Camera.new_pose 4 2 sample_pose)
    (vec2 1.5 0.5) (vec2 2 2) no_tables.

(** A 4x2 orthographic camera before its tables are built. *)
Definition sample_ortho : OrthoCamera.t :=
  OrthoCamera.mk (Camera.new_pose 4 2 sample_pose) no_tables.

(** A history that assigns a mesh and a camera but never prepares the
    mesh, and three images of a caller. *)
Definition sample_calls : list (Renderer.call unit) :=
  [Renderer.SetMesh tt; Renderer.SetCamera (Ortho sample_ortho)].

Definition sample_outputs : Renderer.Outputs :=
  Renderer.mkOutputs (mkImage 1 1 [(7, 7, 7)]) (mkImage 1 1 [9]) (mkImage 1 1 [1]).

(** ** Further specification predicates *)

(** [Eigen::Affine3d * Vector3f]: the linear part applied to the point,
    followed by the translation. *)
Definition transform (a : Affine3d) (p : Vector3f) : Vector3f :=
  Eigen.add (Eigen.mul (linear a) p) (translation a).

(** The columns of a matrix are pairwise orthogonal unit vectors, as those
    of the rotation of a rigid pose are. *)
Definition orthonormal (m : Matrix3f) : Prop :=
  Eigen.dot (Eigen.col m 0) (Eigen.col m 0) = 1%R /\
  Eigen.dot (Eigen.col m 1) (Eigen.col m 1) = 1%R /\
  Eigen.dot (Eigen.col m 2) (Eigen.col m 2) = 1%R /\
  Eigen.dot (Eigen.col m 0) (Eigen.col m 1) = 0%R /\
  Eigen.dot (Eigen.col m 0) (Eigen.col m 2) = 0%R /\
  Eigen.dot (Eigen.col m 1) (Eigen.col m 2) = 0%R.

(** The accessor [f] tabulated over a [width] x [height] image, row after
    row. *)
Definition table_of (width height : Z) (f : R -> R -> Vector3f)
  : list Vector3f :=
  (fun j => f (IZR (j mod width)) (IZR (j / width))) <$> seqZ 0 (width * height).

Definition pinhole_tables (c : PinholeCamera.t) : RayTables :=
  let w := PinholeCamera.width c in
  let h := PinholeCamera.height c in
  tables (table_of w h (PinholeCamera.org_ray_c_f c))
         (table_of w h (PinholeCamera.org_ray_w_f c))
         (table_of w h (PinholeCamera.ray_c_f c))
         (table_of w h (PinholeCamera.ray_w_f c)).

Definition ortho_tables (c : OrthoCamera.t) : RayTables :=
  let w := OrthoCamera.width c in
  let h := OrthoCamera.height c in
  tables (table_of w h (OrthoCamera.org_ray_c_f c))
         (table_of w h (OrthoCamera.org_ray_w_f c))
         (table_of w h (OrthoCamera.ray_c_f c))
         (table_of w h (OrthoCamera.ray_w_f c)).

(** The four discrete accessors at one integer pixel, and the four
    continuous accessors at one sub-pixel, in the order origin (camera),
    origin (world), direction (camera), direction (world). *)
Definition pinhole_lookups (c : PinholeCamera.t) (x y : Z)
  : list (result Vector3f) :=
  [PinholeCamera.org_ray_c_i c x y; PinholeCamera.org_ray_w_i c x y;
   PinholeCamera.ray_c_i c x y; PinholeCamera.ray_w_i c x y].

Definition pinhole_values (c : PinholeCamera.t) (x y : R) : list Vector3f :=
  [PinholeCamera.org_ray_c_f c x y; PinholeCamera.org_ray_w_f c x y;
   PinholeCamera.ray_c_f c x y; PinholeCamera.ray_w_f c x y].

Definition ortho_lookups (c : OrthoCamera.t) (x y : Z)
  : list (result Vector3f) :=
  [OrthoCamera.org_ray_c_i c x y; OrthoCamera.org_ray_w_i c x y;
   OrthoCamera.ray_c_i c x y; OrthoCamera.ray_w_i c x y].

Definition ortho_values (c : OrthoCamera.t) (x y : R) : list Vector3f :=
  [OrthoCamera.org_ray_c_f c x y; OrthoCamera.org_ray_w_f c x y;
   OrthoCamera.ray_c_f c x y; OrthoCamera.ray_w_f c x y].

(** A sequence of mutating calls on one pinhole camera; it stops at the
    first call that throws. *)
Fixpoint pinhole_mutate_all (ms : list PinholeCamera.mutation)
         (c : PinholeCamera.t) : result PinholeCamera.t :=
  match ms with
  | [] => Ok c
  | m :: ms => c' ← PinholeCamera.mutate m c; pinhole_mutate_all ms c'
  end.

(** The size is one [resize] and the loops of [InitRayTable] can work
    with: non-negative in both directions, with a product that fits [int]. *)
Definition image_size_ok (width height : Z) : Prop :=
  0 <= width /\ 0 <= height /\ width * height <= int_max.

(** The members of a camera once a mutation has stored its argument and
    before it rebuilds the tables. *)
Definition pinhole_store (m : PinholeCamera.mutation) (c : PinholeCamera.t)
  : PinholeCamera.t :=
  let b := PinholeCamera.base c in
  let pp := PinholeCamera.principal_point_ c in
  let fl := PinholeCamera.focal_length_ c in
  let tb := PinholeCamera.ray_tables c in
  match m with
  | PinholeCamera.SetSize w h =>
      PinholeCamera.mk (Camera.set_size w h b) pp fl tb
  | PinholeCamera.SetC2w a => PinholeCamera.mk (Camera.set_c2w a b) pp fl tb
  | PinholeCamera.SetPrincipalPoint p => PinholeCamera.mk b p fl tb
  | PinholeCamera.SetFocalLength f => PinholeCamera.mk b pp f tb
  | PinholeCamera.SetFovX d =>
      let f0 := (IZR (Camera.width_ b) * 0.5 / tan (radians d * 0.5))%R in
      PinholeCamera.mk b pp (vec2 f0 f0) tb
  | PinholeCamera.SetFovY d =>
      let f1 := (IZR (Camera.height_ b) * 0.5 / tan (radians d * 0.5))%R in
      PinholeCamera.mk b pp (vec2 f1 f1) tb
  end.

Definition ortho_store (m : OrthoCamera.mutation) (c : OrthoCamera.t)
  : OrthoCamera.t :=
  match m with
  | OrthoCamera.SetSize w h =>
      OrthoCamera.mk (Camera.set_size w h (OrthoCamera.base c))
        (OrthoCamera.ray_tables c)
  | OrthoCamera.SetC2w a =>
      OrthoCamera.mk (Camera.set_c2w a (OrthoCamera.base c))
        (OrthoCamera.ray_tables c)
  end.

(** A camera with its tables replaced. *)
Definition pinhole_with_tables (c : PinholeCamera.t) (tb : RayTables)
  : PinholeCamera.t :=
  PinholeCamera.mk (PinholeCamera.base c) (PinholeCamera.principal_point_ c)
    (PinholeCamera.focal_length_ c) tb.

Definition ortho_with_tables (c : OrthoCamera.t) (tb : RayTables)
  : OrthoCamera.t :=
  OrthoCamera.mk (OrthoCamera.base c) tb.

(** [new] keeps every element of [old] that it has room for. *)
Definition prefix_kept (old new : list Vector3f) : Prop :=
  forall j : nat,
    (j < length old)%nat -> (j < length new)%nat -> new !! j = old !! j.

Definition tables_prefix_kept (old new : RayTables) : Prop :=
  prefix_kept (org_ray_c_table_ old) (org_ray_c_table_ new) /\
  prefix_kept (org_ray_w_table_ old) (org_ray_w_table_ new) /\
  prefix_kept (ray_c_table_ old) (ray_c_table_ new) /\
  prefix_kept (ray_w_table_ old) (ray_w_table_ new).

(** * Properties *)

(** ** Machine integers and loops *)

Lemma wrap_int_small (z : Z) : - 2 ^ 31 <= z <= int_max -> wrap_int z = z.
Proof.
  unfold wrap_int, int_max. intros Hz.
  rewrite Z.mod_small; lia.
Qed.

Lemma pixel_index_exact (w h x y : Z) :
  w * h <= int_max -> 0 <= x < w -> 0 <= y < h ->
  pixel_index w x y = y * w + x.
Proof.
  intros Hn Hx Hy. unfold pixel_index.
  assert (0 <= y * w) by nia.
  assert (y * w + x < w * h) by nia.
  rewrite (wrap_int_small (y * w)) by (unfold int_max in *; lia).
  apply wrap_int_small. unfold int_max in *. lia.
Qed.

Lemma for_range_empty {S : Type} (lo hi : Z) (body : Z -> S -> result S) (s : S) :
  hi <= lo -> for_range lo hi body s = Ok s.
Proof.
  intros Hle. unfold for_range, seqZ.
  replace (Z.to_nat (hi - lo)) with 0%nat by lia. reflexivity.
Qed.

Lemma for_range_step {S : Type} (lo hi : Z) (body : Z -> S -> result S) (s : S) :
  lo < hi ->
  for_range lo hi body s = (s' ← body lo s; for_range (lo + 1) hi body s').
Proof.
  intros Hlt. unfold for_range.
  rewrite (seqZ_cons lo (hi - lo)) by lia. simpl.
  replace (Z.pred (hi - lo)) with (hi - (lo + 1)) by lia.
  replace (Z.succ lo) with (lo + 1) by lia. reflexivity.
Qed.

(** Invariant rule for a counted loop whose body never faults under the
    invariant: the loop runs to completion. *)
Lemma for_range_invariant {S : Type} (I : Z -> S -> Prop)
      (lo hi : Z) (body : Z -> S -> result S) (s : S) :
  lo <= hi ->
  I lo s ->
  (forall i t, lo <= i < hi -> I i t -> exists t', body i t = Ok t' /\ I (i + 1) t') ->
  exists s', for_range lo hi body s = Ok s' /\ I hi s'.
Proof.
  intros Hle.
  remember (Z.to_nat (hi - lo)) as k eqn:Hk.
  revert lo s Hle Hk.
  induction k as [|k IH]; intros lo s Hle Hk Hinit Hbody.
  - assert (hi = lo) as -> by lia.
    exists s. split; [apply for_range_empty; lia | exact Hinit].
  - destruct (Hbody lo s) as (t & Hrun & Ht); [lia | exact Hinit |].
    destruct (IH (lo + 1) t) as (s' & Hrest & Hs'); [lia | lia | exact Ht | |].
    + intros i u Hi. apply Hbody. lia.
    + exists s'. split; [| exact Hs'].
      rewrite for_range_step by lia. rewrite Hrun. exact Hrest.
Qed.

(** ** Filling the tables *)

Section TableFill.
Variables width height : Z.

Lemma vector_set_extend (f : R -> R -> Vector3f) (v : list Vector3f)
      (x y : Z) :
  0 <= x < width -> 0 <= y < height ->
  Z.of_nat (length v) = width * height ->
  (forall j, 0 <= j < y * width + x -> entry_ok width f v j) ->
  exists v',
    vector_set v (y * width + x) (f (IZR x) (IZR y)) = Ok v' /\
    Z.of_nat (length v') = width * height /\
    forall j, 0 <= j < y * width + x + 1 -> entry_ok width f v' j.
Proof.
  intros Hx Hy Hlen Hprev.
  assert (0 <= y * width + x < width * height) as Hi by nia.
  exists (<[Z.to_nat (y * width + x) := f (IZR x) (IZR y)]> v).
  split; [| split].
  - unfold vector_set.
    destruct (Z.leb_spec 0 (y * width + x)); [| lia].
    destruct (Z.ltb_spec (y * width + x) (Z.of_nat (length v))); [| lia].
    reflexivity.
  - rewrite length_insert. exact Hlen.
  - intros j Hj. unfold entry_ok.
    destruct (Z.eq_dec j (y * width + x)) as [-> | Hne].
    + rewrite list_lookup_insert_eq by lia.
      replace ((y * width + x) mod width) with x
        by (apply Z.mod_unique_pos with y; lia).
      replace ((y * width + x) / width) with y
        by (apply Z.div_unique_pos with x; lia).
      reflexivity.
    + rewrite list_lookup_insert_ne by lia.
      apply Hprev. lia.
Qed.

Variables org_ray_c org_ray_w ray_c ray_w : R -> R -> Vector3f.

Lemma fill_pixel_extend (x y : Z) (tb : RayTables) :
  width * height <= int_max ->
  0 <= x < width -> 0 <= y < height ->
  filled width height org_ray_c org_ray_w ray_c ray_w (y * width + x) tb ->
  exists tb',
    fill_pixel width org_ray_c org_ray_w ray_c ray_w x y tb = Ok tb' /\
    filled width height org_ray_c org_ray_w ray_c ray_w (y * width + (x + 1)) tb'.
Proof.
  intros Hn Hx Hy [(L1 & L2 & L3 & L4) Hprev].
  unfold fill_pixel.
  rewrite (pixel_index_exact width height) by assumption.
  destruct (vector_set_extend org_ray_c (org_ray_c_table_ tb) x y)
    as (v1 & -> & K1 & E1); [done | done | done | intros; by apply Hprev |].
  destruct (vector_set_extend org_ray_w (org_ray_w_table_ tb) x y)
    as (v2 & -> & K2 & E2); [done | done | done | intros; by apply Hprev |].
  destruct (vector_set_extend ray_c (ray_c_table_ tb) x y)
    as (v3 & -> & K3 & E3); [done | done | done | intros; by apply Hprev |].
  destruct (vector_set_extend ray_w (ray_w_table_ tb) x y)
    as (v4 & -> & K4 & E4); [done | done | done | intros; by apply Hprev |].
  exists (tables v1 v2 v3 v4). split; [reflexivity |].
  split; [by repeat split |].
  intros j Hj. simpl.
  repeat split; [apply E1 | apply E2 | apply E3 | apply E4]; lia.
Qed.

Lemma fill_row_extend (y : Z) (tb : RayTables) :
  width * height <= int_max ->
  0 <= width -> 0 <= y < height ->
  filled width height org_ray_c org_ray_w ray_c ray_w (y * width) tb ->
  exists tb',
    for_range 0 width
      (fun x => fill_pixel width org_ray_c org_ray_w ray_c ray_w x y) tb
    = Ok tb' /\
    filled width height org_ray_c org_ray_w ray_c ray_w ((y + 1) * width) tb'.
Proof.
  intros Hn Hw Hy Hinv.
  destruct (for_range_invariant
              (fun x => filled width height org_ray_c org_ray_w ray_c ray_w
                          (y * width + x)) 0 width
              (fun x => fill_pixel width org_ray_c org_ray_w ray_c ray_w x y)
              tb) as (tb' & Hrun & Hinv'); [lia | | |].
  - by rewrite Z.add_0_r.
  - intros x t Hx Ht. apply fill_pixel_extend; [done | lia | done | done].
  - exists tb'. split; [exact Hrun |].
    by replace ((y + 1) * width) with (y * width + width) by lia.
Qed.

Lemma fill_rows (tb : RayTables) :
  width * height <= int_max ->
  0 <= width -> 0 <= height ->
  tables_sized width height tb ->
  exists tb',
    for_range 0 height
      (fun y => for_range 0 width
        (fun x => fill_pixel width org_ray_c org_ray_w ray_c ray_w x y)) tb
    = Ok tb' /\
    filled width height org_ray_c org_ray_w ray_c ray_w (width * height) tb'.
Proof.
  intros Hn Hw Hh Hsz.
  destruct (for_range_invariant
              (fun y => filled width height org_ray_c org_ray_w ray_c ray_w
                          (y * width)) 0 height
              (fun y => for_range 0 width
                (fun x => fill_pixel width org_ray_c org_ray_w ray_c ray_w x y))
              tb) as (tb' & Hrun & Hinv'); [lia | | |].
  - split; [exact Hsz | intros j Hj; lia].
  - intros y t Hy Ht. apply fill_row_extend; [done | done | lia | done].
  - exists tb'. split; [exact Hrun |].
    by replace (width * height) with (height * width) by lia.
Qed.
End TableFill.

Lemma vector_resize_sized (n : Z) (v : list Vector3f) :
  0 <= n ->
  exists v', vector_resize n v = Ok v' /\ Z.of_nat (length v') = n.
Proof.
  intros Hn. unfold vector_resize.
  destruct (Z.ltb_spec n 0); [lia |].
  eexists. split; [reflexivity |].
  rewrite length_resize. lia.
Qed.

Lemma vector_get_entry (width height : Z) (f : R -> R -> Vector3f)
      (v : list Vector3f) (x y : Z) :
  width * height <= int_max -> 0 <= x < width -> 0 <= y < height ->
  entry_ok width f v (y * width + x) ->
  vector_get v (pixel_index width x y) = Ok (f (IZR x) (IZR y)).
Proof.
  intros Hn Hx Hy He.
  rewrite (pixel_index_exact width height) by assumption.
  unfold vector_get, entry_ok in *.
  destruct (Z.ltb_spec (y * width + x) 0); [nia |].
  rewrite He.
  replace ((y * width + x) mod width) with x
    by (apply Z.mod_unique_pos with y; lia).
  replace ((y * width + x) / width) with y
    by (apply Z.div_unique_pos with x; lia).
  reflexivity.
Qed.

(** [InitRayTable] returns normally whenever the table size is a
    non-negative [int], and leaves the tables sized and filled. *)
Lemma init_ray_table_ok (width height : Z)
      (org_ray_c org_ray_w ray_c ray_w : R -> R -> Vector3f) (tb : RayTables) :
  table_size_ok width height ->
  exists tb',
    init_ray_table width height org_ray_c org_ray_w ray_c ray_w tb = Ok tb' /\
    pixels_ok width height org_ray_c org_ray_w ray_c ray_w tb'.
Proof.
  intros [Hlo Hhi]. unfold init_ray_table.
  rewrite wrap_int_small by (unfold int_max in *; lia).
  destruct (vector_resize_sized (width * height) (org_ray_c_table_ tb) Hlo)
    as (v1 & -> & L1).
  destruct (vector_resize_sized (width * height) (org_ray_w_table_ tb) Hlo)
    as (v2 & -> & L2).
  destruct (vector_resize_sized (width * height) (ray_c_table_ tb) Hlo)
    as (v3 & -> & L3).
  destruct (vector_resize_sized (width * height) (ray_w_table_ tb) Hlo)
    as (v4 & -> & L4).
  simpl.
  assert (tables_sized width height (tables v1 v2 v3 v4)) as Hsz
    by (by repeat split).
  destruct (Z.le_gt_cases height 0) as [Hh | Hh].
  - (* the outer loop does not run and there is no pixel *)
    rewrite for_range_empty by exact Hh.
    eexists. split; [reflexivity |].
    split; [exact Hsz | intros x y Hx Hy; lia].
  - assert (0 <= width) as Hw by nia.
    destruct (fill_rows width height org_ray_c org_ray_w ray_c ray_w
                (tables v1 v2 v3 v4)) as (tb' & -> & Hsz' & Hfill);
      [done | done | lia | done |].
    exists tb'. split; [reflexivity |].
    split; [exact Hsz' |].
    intros x y Hx Hy.
    destruct (Hfill (y * width + x)) as (E1 & E2 & E3 & E4); [nia |].
    repeat split; by apply (vector_get_entry width height).
Qed.

(** ** The invalidation contract of the two cameras *)

Lemma pinhole_InitRayTable_ok (c : PinholeCamera.t) :
  table_size_ok (PinholeCamera.width c) (PinholeCamera.height c) ->
  exists c',
    PinholeCamera.InitRayTable c = Ok c' /\
    PinholeCamera.base c' = PinholeCamera.base c /\
    PinholeCamera.principal_point_ c' = PinholeCamera.principal_point_ c /\
    PinholeCamera.focal_length_ c' = PinholeCamera.focal_length_ c /\
    pinhole_consistent c'.
Proof.
  intros Hsz. unfold PinholeCamera.InitRayTable.
  destruct (init_ray_table_ok (PinholeCamera.width c) (PinholeCamera.height c)
              (PinholeCamera.org_ray_c_f c) (PinholeCamera.org_ray_w_f c)
              (PinholeCamera.ray_c_f c) (PinholeCamera.ray_w_f c)
              (PinholeCamera.ray_tables c) Hsz) as (tb & -> & Hs & Hpix).
  eexists. split; [reflexivity |].
  do 3 (split; [reflexivity |]).
  split; [exact Hs | exact Hpix].
Qed.

Lemma ortho_InitRayTable_ok (c : OrthoCamera.t) :
  table_size_ok (OrthoCamera.width c) (OrthoCamera.height c) ->
  exists c',
    OrthoCamera.InitRayTable c = Ok c' /\
    OrthoCamera.base c' = OrthoCamera.base c /\
    ortho_consistent c'.
Proof.
  intros Hsz. unfold OrthoCamera.InitRayTable.
  destruct (init_ray_table_ok (OrthoCamera.width c) (OrthoCamera.height c)
              (OrthoCamera.org_ray_c_f c) (OrthoCamera.org_ray_w_f c)
              (OrthoCamera.ray_c_f c) (OrthoCamera.ray_w_f c)
              (OrthoCamera.ray_tables c) Hsz) as (tb & -> & Hs & Hpix).
  eexists. split; [reflexivity |].
  split; [reflexivity |].
  split; [exact Hs | exact Hpix].
Qed.

(** ** Pinhole projection *)

Section PinholeProjection.
Local Open Scope R_scope.
Import PinholeCamera.

(** C2. Round trip: for a pinhole camera with non-zero focal lengths and
    a camera-space point [p] with [p.z > 0], projecting [p] and
    un-projecting the image point at the depth [Project] reports gives
    [p] back, for the three-vector overloads and for the overloads that
    pass the depth separately. *)
Theorem pinhole_project_unproject (c : t) (p : Vector3f) :
  x2 (focal_length c) <> 0 -> y2 (focal_length c) <> 0 -> 0 < z3 p ->
  Unproject3 c (Project3 c p) = p /\
  Unproject2d c (fst (Project2d c p)) (snd (Project2d c p)) = p /\
  snd (Project2d c p) = z3 p /\
  Unproject2d c (Project2 c p) (z3 p) = p.
Proof.
  intros Hfx Hfy Hz. destruct p as [px py pz].
  unfold focal_length in *. simpl in *.
  unfold Unproject3, Unproject2d, Project3, Project2d, Project2. simpl.
  repeat split; f_equal; field; split; lra.
Qed.

Lemma pinhole_project_unproject_witness :
  Unproject3 sample_pinhole (Project3 sample_pinhole (vec3 1 2 4))
  = vec3 1 2 4.
Proof.
  apply (pinhole_project_unproject sample_pinhole (vec3 1 2 4)); simpl; lra.
Defined.

(** C3. For a camera-space point [p] with [p.z > 0] each [Project]
    overload yields the image point
    [focal_length (.) (p.x, p.y) / p.z + principal_point], the overloads
    that report a depth report exactly [p.z], and [Unproject] is the
    algebraic solve
    [((image.x - cx) * d / fx, (image.y - cy) * d / fy, d)].
    [Project] is a total function without any guard on [p.z]. *)
Theorem pinhole_project_formula (c : t) (p : Vector3f) :
  0 < z3 p ->
  Project3 c p = vec3 (x2 (spec_project c p)) (y2 (spec_project c p)) (z3 p) /\
  Project2 c p = spec_project c p /\
  Project2d c p = (spec_project c p, z3 p) /\
  (forall (image_p : Vector2f) (d : R),
      Unproject2d c image_p d =
      vec3 ((x2 image_p - x2 (principal_point c)) * d / x2 (focal_length c))
           ((y2 image_p - y2 (principal_point c)) * d / y2 (focal_length c))
           d) /\
  (forall image_p : Vector3f,
      Unproject3 c image_p =
      Unproject2d c (vec2 (x3 image_p) (y3 image_p)) (z3 image_p)).
Proof.
  intros Hz. destruct p as [px py pz]. simpl in Hz.
  unfold Project3, Project2, Project2d, spec_project, focal_length,
    principal_point. simpl.
  repeat split; f_equal; try f_equal; field; lra.
Qed.

Lemma pinhole_project_formula_witness :
  Project2d sample_pinhole (vec3 1 2 4)
  = (spec_project sample_pinhole (vec3 1 2 4), 4).
Proof.
  apply (pinhole_project_formula sample_pinhole (vec3 1 2 4)); simpl; lra.
Defined.
End PinholeProjection.

(** ** The model runs *)

Example sample_pinhole_tables_length :
  match PinholeCamera.InitRayTable sample_pinhole with
  | Ok c => length (ray_w_table_ (PinholeCamera.ray_tables c))
  | Raise _ => 0%nat
  end = 8%nat.
Proof. vm_compute. reflexivity. Qed.

Example sample_ortho_lookup :
  (c ← OrthoCamera.InitRayTable sample_ortho; OrthoCamera.org_ray_c_i c 3 1)
  = Ok (vec3 (3 - 2) (1 - 1) 0)%R.
Proof. vm_compute. reflexivity. Qed.

Example sample_ortho_lookup_outside :
  (c ← OrthoCamera.InitRayTable sample_ortho; OrthoCamera.ray_c_i c 0 2)
  = Raise OutOfRange.
Proof. vm_compute. reflexivity. Qed.

Example sample_resize_throws :
  PinholeCamera.set_size (-2) 3 sample_pinhole = Raise LengthError.
Proof. reflexivity. Qed.

Example default_pinhole_has_one_element :
  match PinholeCamera.new with
  | Ok c => length (ray_c_table_ (PinholeCamera.ray_tables c))
  | Raise _ => 0%nat
  end = 1%nat.
Proof. reflexivity. Qed.

(** ** Mutations rebuild the tables *)

Local Ltac rebuild_pinhole c1 Hsz :=
  let c' := fresh "c'" in
  let Hrun := fresh "Hrun" in
  let Hb := fresh "Hb" in
  let Hc := fresh "Hc" in
  destruct (pinhole_InitRayTable_ok c1 Hsz) as (c' & Hrun & Hb & _ & _ & Hc);
  exists c'; split; [exact Hrun |]; split; [| exact Hc];
  unfold PinholeCamera.width, PinholeCamera.height; rewrite Hb; reflexivity.

Lemma pinhole_mutate_ok (m : PinholeCamera.mutation) (c : PinholeCamera.t) :
  table_size_ok (PinholeCamera.size_after m c).1 (PinholeCamera.size_after m c).2 ->
  exists c',
    PinholeCamera.mutate m c = Ok c' /\
    (PinholeCamera.width c', PinholeCamera.height c') = PinholeCamera.size_after m c /\
    pinhole_consistent c'.
Proof.
  intros Hsz. destruct c as [b pp0 fl0 tb].
  destruct m as [w h | a | pp | fl | d | d]; simpl in Hsz.
  - rebuild_pinhole (PinholeCamera.mk (Camera.set_size w h b) pp0 fl0 tb) Hsz.
  - rebuild_pinhole (PinholeCamera.mk (Camera.set_c2w a b) pp0 fl0 tb) Hsz.
  - rebuild_pinhole (PinholeCamera.mk b pp fl0 tb) Hsz.
  - rebuild_pinhole (PinholeCamera.mk b pp0 fl tb) Hsz.
  - rebuild_pinhole
      (PinholeCamera.mk b pp0
         (vec2 (IZR (Camera.width_ b) * 0.5 / tan (radians d * 0.5))%R
               (IZR (Camera.width_ b) * 0.5 / tan (radians d * 0.5))%R) tb) Hsz.
  - rebuild_pinhole
      (PinholeCamera.mk b pp0
         (vec2 (IZR (Camera.height_ b) * 0.5 / tan (radians d * 0.5))%R
               (IZR (Camera.height_ b) * 0.5 / tan (radians d * 0.5))%R) tb) Hsz.
Qed.

Lemma ortho_mutate_ok (m : OrthoCamera.mutation) (c : OrthoCamera.t) :
  table_size_ok (OrthoCamera.size_after m c).1 (OrthoCamera.size_after m c).2 ->
  exists c',
    OrthoCamera.mutate m c = Ok c' /\
    (OrthoCamera.width c', OrthoCamera.height c') = OrthoCamera.size_after m c /\
    ortho_consistent c'.
Proof.
  intros Hsz.
  destruct m as [w h | a]; simpl in *.
  - destruct (ortho_InitRayTable_ok
                (OrthoCamera.mk (Camera.set_size w h (OrthoCamera.base c))
                                (OrthoCamera.ray_tables c)) Hsz)
      as (c' & Hrun & Hb & Hc).
    exists c'. split; [exact Hrun |]. split; [| exact Hc].
    unfold OrthoCamera.width, OrthoCamera.height. rewrite Hb. reflexivity.
  - destruct (ortho_InitRayTable_ok
                (OrthoCamera.mk (Camera.set_c2w a (OrthoCamera.base c))
                                (OrthoCamera.ray_tables c)) Hsz)
      as (c' & Hrun & Hb & Hc).
    exists c'. split; [exact Hrun |]. split; [| exact Hc].
    unfold OrthoCamera.width, OrthoCamera.height. rewrite Hb. reflexivity.
Qed.

(** C1. For both camera classes, every mutation ([set_size], [set_c2w], and
    for the pinhole camera also [set_principal_point], [set_focal_length],
    [set_fov_x], [set_fov_y]) whose resulting table size [width * height]
    is a non-negative [int] returns with all four tables sized exactly
    [width * height] and with every discrete accessor, at every integer
    pixel inside the image, equal to the continuous accessor at the same
    coordinates under the new size, pose and intrinsics.  In particular a
    pose change after a resize leaves the tables at the new size. *)
Theorem tables_rebuilt_by_every_mutation :
  (forall (m : PinholeCamera.mutation) (c : PinholeCamera.t),
      table_size_ok (PinholeCamera.size_after m c).1
                    (PinholeCamera.size_after m c).2 ->
      exists c',
        PinholeCamera.mutate m c = Ok c' /\
        (PinholeCamera.width c', PinholeCamera.height c')
          = PinholeCamera.size_after m c /\
        pinhole_consistent c') /\
  (forall (m : OrthoCamera.mutation) (c : OrthoCamera.t),
      table_size_ok (OrthoCamera.size_after m c).1
                    (OrthoCamera.size_after m c).2 ->
      exists c',
        OrthoCamera.mutate m c = Ok c' /\
        (OrthoCamera.width c', OrthoCamera.height c')
          = OrthoCamera.size_after m c /\
        ortho_consistent c') /\
  (forall (c : PinholeCamera.t) (w h : Z) (a : Affine3d),
      table_size_ok w h ->
      exists c1 c2,
        PinholeCamera.set_size w h c = Ok c1 /\
        PinholeCamera.set_c2w a c1 = Ok c2 /\
        tables_sized w h (PinholeCamera.ray_tables c2) /\
        pinhole_consistent c2) /\
  (forall (c : OrthoCamera.t) (w h : Z) (a : Affine3d),
      table_size_ok w h ->
      exists c1 c2,
        OrthoCamera.set_size w h c = Ok c1 /\
        OrthoCamera.set_c2w a c1 = Ok c2 /\
        tables_sized w h (OrthoCamera.ray_tables c2) /\
        ortho_consistent c2).
Proof.
  split; [exact pinhole_mutate_ok |].
  split; [exact ortho_mutate_ok |].
  split.
  - intros c w h a Hsz.
    destruct (pinhole_mutate_ok (PinholeCamera.SetSize w h) c Hsz)
      as (c1 & Hrun1 & Hwh1 & _).
    cbn [PinholeCamera.size_after] in Hwh1. injection Hwh1 as Hw1 Hh1.
    destruct (pinhole_mutate_ok (PinholeCamera.SetC2w a) c1)
      as (c2 & Hrun2 & Hwh2 & Hc2).
    { cbn [PinholeCamera.size_after fst snd]. by rewrite Hw1, Hh1. }
    cbn [PinholeCamera.size_after] in Hwh2. injection Hwh2 as Hw2 Hh2.
    exists c1, c2. split; [exact Hrun1 |]. split; [exact Hrun2 |].
    split; [| exact Hc2].
    destruct Hc2 as [Hs _]. by rewrite Hw2, Hh2, Hw1, Hh1 in Hs.
  - intros c w h a Hsz.
    destruct (ortho_mutate_ok (OrthoCamera.SetSize w h) c Hsz)
      as (c1 & Hrun1 & Hwh1 & _).
    cbn [OrthoCamera.size_after] in Hwh1. injection Hwh1 as Hw1 Hh1.
    destruct (ortho_mutate_ok (OrthoCamera.SetC2w a) c1)
      as (c2 & Hrun2 & Hwh2 & Hc2).
    { cbn [OrthoCamera.size_after fst snd]. by rewrite Hw1, Hh1. }
    cbn [OrthoCamera.size_after] in Hwh2. injection Hwh2 as Hw2 Hh2.
    exists c1, c2. split; [exact Hrun1 |]. split; [exact Hrun2 |].
    split; [| exact Hc2].
    destruct Hc2 as [Hs _]. by rewrite Hw2, Hh2, Hw1, Hh1 in Hs.
Qed.

Lemma sample_size_ok : table_size_ok 4 2.
Proof. unfold table_size_ok, int_max. lia. Qed.

Lemma tables_rebuilt_by_every_mutation_witness :
  (exists c',
      PinholeCamera.mutate (PinholeCamera.SetFovY 60) sample_pinhole = Ok c' /\
      pinhole_consistent c') /\
  (exists c',
      OrthoCamera.mutate (OrthoCamera.SetSize 3 5) sample_ortho = Ok c' /\
      ortho_consistent c') /\
  (exists c1 c2,
      PinholeCamera.set_size 3 5 sample_pinhole = Ok c1 /\
      PinholeCamera.set_c2w Eigen.Identity c1 = Ok c2 /\
      tables_sized 3 5 (PinholeCamera.ray_tables c2)) /\
  (exists c1 c2,
      OrthoCamera.set_size 3 5 sample_ortho = Ok c1 /\
      OrthoCamera.set_c2w Eigen.Identity c1 = Ok c2 /\
      tables_sized 3 5 (OrthoCamera.ray_tables c2)).
Proof.
  destruct tables_rebuilt_by_every_mutation as (HP & HO & HPP & HOO).
  assert (table_size_ok 3 5) as H35 by (unfold table_size_ok, int_max; lia).
  split; [| split; [| split]].
  - destruct (HP (PinholeCamera.SetFovY 60) sample_pinhole sample_size_ok)
      as (c' & Hrun & _ & Hc).
    exists c'. split; assumption.
  - destruct (HO (OrthoCamera.SetSize 3 5) sample_ortho H35)
      as (c' & Hrun & _ & Hc).
    exists c'. split; assumption.
  - destruct (HPP sample_pinhole 3 5 Eigen.Identity H35)
      as (c1 & c2 & Hrun1 & Hrun2 & Hs & _).
    exists c1, c2. split; [exact Hrun1 |]. split; [exact Hrun2 | exact Hs].
  - destruct (HOO sample_ortho 3 5 Eigen.Identity H35)
      as (c1 & c2 & Hrun1 & Hrun2 & Hs & _).
    exists c1, c2. split; [exact Hrun1 |]. split; [exact Hrun2 | exact Hs].
Defined.

(** ** Setters of the pinhole camera *)

Lemma pinhole_InitRayTable_frame (c c' : PinholeCamera.t) :
  PinholeCamera.InitRayTable c = Ok c' ->
  PinholeCamera.base c' = PinholeCamera.base c /\
  PinholeCamera.principal_point_ c' = PinholeCamera.principal_point_ c /\
  PinholeCamera.focal_length_ c' = PinholeCamera.focal_length_ c.
Proof.
  unfold PinholeCamera.InitRayTable.
  destruct (init_ray_table _ _ _ _ _ _ _) as [tb | e]; simpl; [| discriminate].
  intros [= <-]. by repeat split.
Qed.

(** C10. Whenever [set_fov_x] or [set_fov_y] returns, the two channels of
    the focal length hold the same value. *)
Theorem pinhole_set_fov_square_pixels (c c' : PinholeCamera.t) (deg : R) :
  PinholeCamera.set_fov_x deg c = Ok c' \/ PinholeCamera.set_fov_y deg c = Ok c' ->
  x2 (PinholeCamera.focal_length c') = y2 (PinholeCamera.focal_length c').
Proof.
  unfold PinholeCamera.set_fov_x, PinholeCamera.set_fov_y, PinholeCamera.focal_length.
  intros [H | H]; apply pinhole_InitRayTable_frame in H as (_ & _ & ->);
    reflexivity.
Qed.

Lemma pinhole_set_fov_square_pixels_witness :
  exists c',
    PinholeCamera.set_fov_x 90 sample_pinhole = Ok c' /\
    x2 (PinholeCamera.focal_length c') = y2 (PinholeCamera.focal_length c').
Proof.
  destruct (pinhole_mutate_ok (PinholeCamera.SetFovX 90) sample_pinhole
              sample_size_ok) as (c' & Hrun & _).
  exists c'. split; [exact Hrun |].
  apply (pinhole_set_fov_square_pixels sample_pinhole c' 90).
  left. exact Hrun.
Defined.

Lemma pinhole_setter_runs (m : PinholeCamera.mutation) (c : PinholeCamera.t) :
  table_size_ok (PinholeCamera.size_after m c).1 (PinholeCamera.size_after m c).2 ->
  exists c', PinholeCamera.mutate m c = Ok c'.
Proof.
  intros H. destruct (pinhole_mutate_ok m c H) as (c' & Hrun & _). eauto.
Qed.

(** C7 does not hold: with a zero width and a negative height, with a
    negative and a zero focal length, with a field of view of 180 and of
    270 degrees the setters return normally, and the rejected value is what
    the camera then holds. *)
Lemma setters_validate_counterexample :
  PinholeCamera.set_size 0 (-1) sample_pinhole
    = Ok (PinholeCamera.mk (Camera.new_pose 0 (-1) sample_pose)
            (vec2 1.5 0.5) (vec2 2 2) no_tables) /\
  OrthoCamera.set_size (-3) 0 sample_ortho
    = Ok (OrthoCamera.mk (Camera.new_pose (-3) 0 sample_pose) no_tables) /\
  (exists c',
      PinholeCamera.set_focal_length (vec2 (-1) 0) sample_pinhole = Ok c' /\
      PinholeCamera.focal_length c' = vec2 (-1) 0) /\
  (exists c', PinholeCamera.set_fov_x 180 sample_pinhole = Ok c') /\
  (exists c', PinholeCamera.set_fov_y 270 sample_pinhole = Ok c').
Proof.
  split; [reflexivity |]. split; [reflexivity |].
  split; [| split].
  - destruct (pinhole_setter_runs
                (PinholeCamera.SetFocalLength (vec2 (-1) 0)) sample_pinhole
                sample_size_ok) as (c' & Hrun).
    exists c'. split; [exact Hrun |].
    apply pinhole_InitRayTable_frame in Hrun as (_ & _ & Hfl). exact Hfl.
  - exact (pinhole_setter_runs (PinholeCamera.SetFovX 180) sample_pinhole
             sample_size_ok).
  - exact (pinhole_setter_runs (PinholeCamera.SetFovY 270) sample_pinhole
             sample_size_ok).
Qed.

(** C7, amended.  No setter validates its argument and none raises a
    configuration error: on a camera whose tables can be allocated,
    [set_focal_length] stores any focal length, [set_fov_x] and [set_fov_y]
    accept any angle and store the focal length derived from it in both
    channels, and [set_size] (of either camera) stores any width and
    height whose product is a non-negative [int]; each returns normally,
    with the four tables rebuilt: sized [width * height] and equal, at
    every integer pixel, to the continuous accessors under the stored
    values. *)
Theorem setters_store_without_validation (c : PinholeCamera.t) (o : OrthoCamera.t) :
  table_size_ok (PinholeCamera.width c) (PinholeCamera.height c) ->
  (forall fl : Vector2f,
      exists c',
        PinholeCamera.set_focal_length fl c = Ok c' /\
        PinholeCamera.focal_length c' = fl /\
        pinhole_consistent c') /\
  (forall deg : R,
      exists c',
        PinholeCamera.set_fov_x deg c = Ok c' /\
        PinholeCamera.focal_length c'
        = vec2 (IZR (PinholeCamera.width c) * 0.5 / tan (radians deg * 0.5))%R
               (IZR (PinholeCamera.width c) * 0.5 / tan (radians deg * 0.5))%R /\
        pinhole_consistent c') /\
  (forall deg : R,
      exists c',
        PinholeCamera.set_fov_y deg c = Ok c' /\
        PinholeCamera.focal_length c'
        = vec2 (IZR (PinholeCamera.height c) * 0.5 / tan (radians deg * 0.5))%R
               (IZR (PinholeCamera.height c) * 0.5 / tan (radians deg * 0.5))%R /\
        pinhole_consistent c') /\
  (forall w h : Z,
      table_size_ok w h ->
      exists c',
        PinholeCamera.set_size w h c = Ok c' /\
        PinholeCamera.width c' = w /\ PinholeCamera.height c' = h /\
        pinhole_consistent c') /\
  (forall w h : Z,
      table_size_ok w h ->
      exists o',
        OrthoCamera.set_size w h o = Ok o' /\
        OrthoCamera.width o' = w /\ OrthoCamera.height o' = h /\
        ortho_consistent o').
Proof.
  intros Hsz.
  split; [| split; [| split; [| split]]].
  - intros fl.
    destruct (pinhole_mutate_ok (PinholeCamera.SetFocalLength fl) c Hsz)
      as (c' & Hrun & _ & Hc).
    exists c'. split; [exact Hrun |]. split; [| exact Hc].
    by apply pinhole_InitRayTable_frame in Hrun as (_ & _ & Hfl).
  - intros deg.
    destruct (pinhole_mutate_ok (PinholeCamera.SetFovX deg) c Hsz)
      as (c' & Hrun & _ & Hc).
    exists c'. split; [exact Hrun |]. split; [| exact Hc].
    unfold PinholeCamera.focal_length.
    by apply pinhole_InitRayTable_frame in Hrun as (_ & _ & ->).
  - intros deg.
    destruct (pinhole_mutate_ok (PinholeCamera.SetFovY deg) c Hsz)
      as (c' & Hrun & _ & Hc).
    exists c'. split; [exact Hrun |]. split; [| exact Hc].
    unfold PinholeCamera.focal_length.
    by apply pinhole_InitRayTable_frame in Hrun as (_ & _ & ->).
  - intros w h Hwh.
    destruct (pinhole_mutate_ok (PinholeCamera.SetSize w h) c Hwh)
      as (c' & Hrun & Hsize & Hc).
    exists c'. split; [exact Hrun |].
    cbn [PinholeCamera.size_after] in Hsize. injection Hsize as Hw Hh.
    split; [exact Hw |]. split; [exact Hh | exact Hc].
  - intros w h Hwh.
    destruct (ortho_mutate_ok (OrthoCamera.SetSize w h) o Hwh)
      as (o' & Hrun & Hsize & Hc).
    exists o'. split; [exact Hrun |].
    cbn [OrthoCamera.size_after] in Hsize. injection Hsize as Hw Hh.
    split; [exact Hw |]. split; [exact Hh | exact Hc].
Qed.

Lemma setters_store_without_validation_witness :
  (exists c',
      PinholeCamera.set_focal_length (vec2 0 (-2)) sample_pinhole = Ok c' /\
      PinholeCamera.focal_length c' = vec2 0 (-2) /\
      pinhole_consistent c') /\
  (exists c',
      PinholeCamera.set_size 0 (-1) sample_pinhole = Ok c' /\
      PinholeCamera.width c' = 0 /\ PinholeCamera.height c' = -1 /\
      pinhole_consistent c').
Proof.
  destruct (setters_store_without_validation sample_pinhole sample_ortho)
    as (Hfl & _ & _ & Hsize & _).
  - exact sample_size_ok.
  - split; [exact (Hfl (vec2 0 (-2))) |].
    apply (Hsize 0 (-1)). unfold table_size_ok, int_max. lia.
Defined.

(** The one fault [set_size] can meet is the allocation of the tables:
    a negative product of width and height reaches [resize] as a huge
    unsigned size. *)
Lemma set_size_negative_product (c : PinholeCamera.t) (w h : Z) :
  - 2 ^ 31 <= w * h < 0 ->
  PinholeCamera.set_size w h c = Raise LengthError.
Proof.
  intros Hwh. unfold PinholeCamera.set_size, PinholeCamera.InitRayTable.
  unfold init_ray_table. cbn [PinholeCamera.width PinholeCamera.height
    PinholeCamera.base Camera.set_size Camera.width_ Camera.height_].
  rewrite wrap_int_small by (unfold int_max; lia).
  unfold vector_resize.
  destruct (Z.ltb_spec (w * h) 0); [reflexivity | lia].
Qed.

(** ** Field of view *)

Section FieldOfView.
Local Open Scope R_scope.

Lemma half_literal : 0.5 = / 2.
Proof. lra. Qed.

Lemma half_angle_range (deg : R) :
  0 < deg < 180 -> 0 < radians deg * 0.5 < PI / 2.
Proof.
  intros [Hlo Hhi]. unfold radians.
  pose proof PI_RGT_0 as Hpi.
  split.
  - apply Rmult_lt_0_compat; [| lra].
    apply Rdiv_lt_0_compat; [| lra].
    apply Rmult_lt_0_compat; assumption.
  - assert (deg * PI < 180 * PI) by (apply Rmult_lt_compat_r; assumption).
    lra.
Qed.

(** The conversion of [set_fov_x]/[set_fov_y] followed by the one of
    [fov_x]/[fov_y], on a positive extent. *)
Lemma fov_of_focal_of_fov (extent : Z) (deg : R) :
  (0 < extent)%Z -> 0 < deg < 180 ->
  degrees (2 * atan (IZR extent * 0.5
                     / (IZR extent * 0.5 / tan (radians deg * 0.5))))
  = deg.
Proof.
  intros Hext Hdeg.
  pose proof (half_angle_range deg Hdeg) as [Hlo Hhi].
  pose proof (tan_gt_0 _ Hlo Hhi) as Htan.
  assert (0 < IZR extent) as He by (apply IZR_lt; exact Hext).
  rewrite half_literal in *.
  replace (IZR extent * / 2 / (IZR extent * / 2 / tan (radians deg * / 2)))
    with (tan (radians deg * / 2)) by (field; split; lra).
  rewrite atan_tan by lra.
  unfold degrees, radians. field. apply PI_neq0.
Qed.

(** C6. On a pinhole camera of positive width and height, for an angle
    strictly between 0 and 180 degrees, [set_fov_y] followed by [fov_y]
    returns the angle, and so does [set_fov_x] followed by [fov_x]. *)
Theorem pinhole_fov_roundtrip (c : PinholeCamera.t) (deg : R) :
  (0 < PinholeCamera.width c)%Z -> (0 < PinholeCamera.height c)%Z ->
  table_size_ok (PinholeCamera.width c) (PinholeCamera.height c) ->
  0 < deg < 180 ->
  (exists c',
      PinholeCamera.set_fov_y deg c = Ok c' /\ PinholeCamera.fov_y c' = deg) /\
  (exists c',
      PinholeCamera.set_fov_x deg c = Ok c' /\ PinholeCamera.fov_x c' = deg).
Proof.
  intros Hw Hh Hsz Hdeg. split.
  - destruct (pinhole_setter_runs (PinholeCamera.SetFovY deg) c Hsz)
      as (c' & Hrun).
    exists c'. split; [exact Hrun |].
    apply pinhole_InitRayTable_frame in Hrun as (Hb & _ & Hfl).
    unfold PinholeCamera.fov_y, PinholeCamera.height. rewrite Hb, Hfl.
    apply fov_of_focal_of_fov; assumption.
  - destruct (pinhole_setter_runs (PinholeCamera.SetFovX deg) c Hsz)
      as (c' & Hrun).
    exists c'. split; [exact Hrun |].
    apply pinhole_InitRayTable_frame in Hrun as (Hb & _ & Hfl).
    unfold PinholeCamera.fov_x, PinholeCamera.width. rewrite Hb, Hfl.
    apply fov_of_focal_of_fov; assumption.
Qed.

Lemma pinhole_fov_roundtrip_witness :
  (exists c',
      PinholeCamera.set_fov_y 60 sample_pinhole = Ok c' /\
      PinholeCamera.fov_y c' = 60) /\
  (exists c',
      PinholeCamera.set_fov_x 60 sample_pinhole = Ok c' /\
      PinholeCamera.fov_x c' = 60).
Proof.
  refine (pinhole_fov_roundtrip sample_pinhole 60 _ _ _ _).
  - reflexivity.
  - reflexivity.
  - exact sample_size_ok.
  - lra.
Defined.
End FieldOfView.

(** ** The cached pose *)

Lemma pose_cached_set_c2w (a : Affine3d) (b : Camera.t) :
  pose_cached (Camera.set_c2w a b).
Proof. by repeat split. Qed.

Lemma pose_cached_new_pose (w h : Z) (a : Affine3d) :
  pose_cached (Camera.new_pose w h a).
Proof. apply pose_cached_set_c2w. Qed.

Lemma pose_cached_set_size (w h : Z) (b : Camera.t) :
  pose_cached b -> pose_cached (Camera.set_size w h b).
Proof. intros H. exact H. Qed.

Lemma pinhole_mutate_pose_cached (m : PinholeCamera.mutation)
      (c c' : PinholeCamera.t) :
  pose_cached (PinholeCamera.base c) ->
  PinholeCamera.mutate m c = Ok c' ->
  pose_cached (PinholeCamera.base c').
Proof.
  intros Hc Hrun.
  destruct m; simpl in Hrun;
    apply pinhole_InitRayTable_frame in Hrun as (-> & _ & _);
    first [exact Hc | apply pose_cached_set_c2w].
Qed.

Lemma sample_pinhole_built :
  exists c,
    PinholeCamera.new_full 4 2 sample_pose (vec2 1.5 0.5) (vec2 2 2) = Ok c /\
    pose_cached (PinholeCamera.base c) /\
    pinhole_consistent c.
Proof.
  destruct (pinhole_InitRayTable_ok sample_pinhole sample_size_ok)
    as (c & Hrun & Hb & _ & _ & Hc).
  exists c. split; [exact Hrun |]. split; [| exact Hc].
  rewrite Hb. apply pose_cached_new_pose.
Qed.

Lemma sample_ortho_built :
  exists c,
    OrthoCamera.new_pose 4 2 sample_pose = Ok c /\
    pose_cached (OrthoCamera.base c) /\
    (OrthoCamera.width c = 4 /\ OrthoCamera.height c = 2) /\
    ortho_consistent c.
Proof.
  destruct (ortho_InitRayTable_ok sample_ortho sample_size_ok)
    as (c & Hrun & Hb & Hc).
  exists c. split; [exact Hrun |].
  unfold OrthoCamera.width, OrthoCamera.height. rewrite Hb.
  split; [apply pose_cached_new_pose |]. split; [by split | exact Hc].
Qed.

(** ** Rays of the pinhole camera *)

Section PinholeRays.
Local Open Scope R_scope.

Lemma direction_squaredNorm_pos (a b : R) :
  0 < Eigen.squaredNorm (vec3 a b 1).
Proof.
  unfold Eigen.squaredNorm, Eigen.dot. simpl.
  pose proof (Rle_0_sqr a) as Ha. pose proof (Rle_0_sqr b) as Hb.
  unfold Rsqr in *. lra.
Qed.

Lemma normalize_direction (a b : R) :
  Eigen.normalize (vec3 a b 1)
  = Eigen.div (vec3 a b 1) (Eigen.norm (vec3 a b 1)).
Proof.
  unfold Eigen.normalize, Eigen.norm.
  destruct (Rlt_dec 0 (Eigen.squaredNorm (vec3 a b 1))) as [_ | Hn];
    [reflexivity |].
  exfalso. apply Hn, direction_squaredNorm_pos.
Qed.

Lemma normalize_direction_unit (a b : R) :
  Eigen.norm (Eigen.normalize (vec3 a b 1)) = 1.
Proof.
  rewrite normalize_direction.
  pose proof (direction_squaredNorm_pos a b) as Hz.
  pose proof (sqrt_lt_R0 _ Hz) as Hs.
  pose proof (sqrt_sqrt (Eigen.squaredNorm (vec3 a b 1)) (Rlt_le _ _ Hz))
    as Hss.
  unfold Eigen.norm at 1.
  replace (Eigen.squaredNorm
             (Eigen.div (vec3 a b 1) (Eigen.norm (vec3 a b 1)))) with 1;
    [apply sqrt_1 |].
  unfold Eigen.norm.
  set (s := sqrt (Eigen.squaredNorm (vec3 a b 1))) in *.
  unfold Eigen.squaredNorm, Eigen.dot in *. simpl in *.
  transitivity ((a * a + b * b + 1 * 1) / (s * s)).
  - rewrite Hss. field. lra.
  - field. lra.
Qed.

(** C4. For a pinhole camera and any pixel coordinate: [org_ray_c] is
    the origin [(0, 0, 0)]; [org_ray_w] is the translation of the pose;
    [ray_c] is [((x - cx) / fx, (y - cy) / fy, 1)] divided by its norm,
    a unit vector; [ray_w] is the rotation of the pose applied to
    [ray_c].  This holds for the continuous accessors at every sub-pixel
    and for the table lookups at every integer pixel of the image. *)
Theorem pinhole_rays (c : PinholeCamera.t) :
  pose_cached (PinholeCamera.base c) ->
  let pose := Camera.c2w (PinholeCamera.base c) in
  let dir x y :=
    Eigen.div (spec_direction c x y) (Eigen.norm (spec_direction c x y)) in
  (forall x y : R,
      PinholeCamera.org_ray_c_f c x y = vec3 0 0 0 /\
      PinholeCamera.org_ray_w_f c x y = translation pose /\
      PinholeCamera.ray_c_f c x y = dir x y /\
      Eigen.norm (PinholeCamera.ray_c_f c x y) = 1 /\
      PinholeCamera.ray_w_f c x y
      = Eigen.mul (linear pose) (PinholeCamera.ray_c_f c x y)) /\
  (pinhole_consistent c ->
   forall x y : Z,
     (0 <= x < PinholeCamera.width c)%Z ->
     (0 <= y < PinholeCamera.height c)%Z ->
     PinholeCamera.org_ray_c_i c x y = Ok (vec3 0 0 0) /\
     PinholeCamera.org_ray_w_i c x y = Ok (translation pose) /\
     PinholeCamera.ray_c_i c x y = Ok (dir (IZR x) (IZR y)) /\
     PinholeCamera.ray_w_i c x y
     = Ok (Eigen.mul (linear pose) (dir (IZR x) (IZR y)))).
Proof.
  intros (HR & Ht & _) pose dir.
  assert (forall x y : R,
             PinholeCamera.org_ray_c_f c x y = vec3 0 0 0 /\
             PinholeCamera.org_ray_w_f c x y = translation pose /\
             PinholeCamera.ray_c_f c x y = dir x y /\
             Eigen.norm (PinholeCamera.ray_c_f c x y) = 1 /\
             PinholeCamera.ray_w_f c x y
             = Eigen.mul (linear pose) (PinholeCamera.ray_c_f c x y))
    as Hcont.
  { intros x y.
    split; [reflexivity |].
    split; [exact Ht |].
    split; [apply normalize_direction |].
    split; [apply normalize_direction_unit |].
    unfold PinholeCamera.ray_w_f. by rewrite HR. }
  split; [exact Hcont |].
  intros [_ Htab] x y Hx Hy.
  destruct (Htab x y Hx Hy) as (-> & -> & -> & ->).
  destruct (Hcont (IZR x) (IZR y)) as (-> & -> & E3 & _ & ->).
  rewrite E3. by repeat split.
Qed.

Lemma pinhole_rays_witness :
  exists c,
    PinholeCamera.new_full 4 2 sample_pose (vec2 1.5 0.5) (vec2 2 2) = Ok c /\
    PinholeCamera.org_ray_w_f c 3 1 = translation (Camera.c2w (PinholeCamera.base c)) /\
    PinholeCamera.org_ray_w_i c 3 1
    = Ok (translation (Camera.c2w (PinholeCamera.base c))).
Proof.
  destruct sample_pinhole_built as (c & Hrun & Hpose & Hc).
  exists c. split; [exact Hrun |].
  destruct (pinhole_rays c Hpose) as [Hcont Htab].
  split.
  - apply (Hcont 3 1).
  - apply (Htab Hc 3%Z 1%Z).
    + destruct (pinhole_InitRayTable_frame _ _ Hrun) as (Hb & _).
      unfold PinholeCamera.width. rewrite Hb. simpl. lia.
    + destruct (pinhole_InitRayTable_frame _ _ Hrun) as (Hb & _).
      unfold PinholeCamera.height. rewrite Hb. simpl. lia.
Defined.
End PinholeRays.

(** ** Rays of the orthographic camera *)

Section OrthoRays.
Local Open Scope R_scope.

Lemma ortho_org_ray_w_formula (c : OrthoCamera.t) (x y : R) :
  pose_cached (OrthoCamera.base c) ->
  let pose := Camera.c2w (OrthoCamera.base c) in
  OrthoCamera.org_ray_w_f c x y
  = Eigen.add (translation pose)
      (Eigen.add
         (Eigen.scale (x - IZR (OrthoCamera.width c) / 2)
            (Eigen.col (linear pose) 0))
         (Eigen.scale (y - IZR (OrthoCamera.height c) / 2)
            (Eigen.col (linear pose) 1))).
Proof.
  intros (_ & Ht & Hx & Hy & _) pose. subst pose.
  unfold OrthoCamera.org_ray_w_f. rewrite Ht, Hx, Hy, half_literal.
  unfold Eigen.add, Eigen.scale, Camera.c2w in *. simpl.
  f_equal; field.
Qed.

Lemma ortho_org_ray_w_difference (c : OrthoCamera.t) (x1 y1 x2 y2 : R) :
  pose_cached (OrthoCamera.base c) ->
  let pose := Camera.c2w (OrthoCamera.base c) in
  Eigen.sub (OrthoCamera.org_ray_w_f c x2 y2) (OrthoCamera.org_ray_w_f c x1 y1)
  = Eigen.add (Eigen.scale (x2 - x1) (Eigen.col (linear pose) 0))
              (Eigen.scale (y2 - y1) (Eigen.col (linear pose) 1)).
Proof.
  intros Hpose pose. subst pose.
  rewrite !ortho_org_ray_w_formula by exact Hpose.
  unfold Eigen.sub, Eigen.add, Eigen.scale. simpl.
  f_equal; field.
Qed.

(** C5. For an orthographic camera and any two pixel coordinates, the
    ray directions coincide: [(0, 0, 1)] in the camera frame and the
    third column of the pose rotation in the world frame.  The
    world-frame origin at [(x, y)] is the pose translation offset by
    [(x - width/2) * right + (y - height/2) * up], so two origins differ
    by [(x2 - x1) * right + (y2 - y1) * up], where [right] and [up] are
    the first and second columns of the pose rotation.  This holds for
    the continuous accessors and for the table lookups at integer pixels
    of the image. *)
Theorem ortho_rays_parallel (c : OrthoCamera.t) :
  pose_cached (OrthoCamera.base c) ->
  let pose := Camera.c2w (OrthoCamera.base c) in
  let right := Eigen.col (linear pose) 0 in
  let up := Eigen.col (linear pose) 1 in
  let forward := Eigen.col (linear pose) 2 in
  let origin x y :=
    Eigen.add (translation pose)
      (Eigen.add (Eigen.scale (x - IZR (OrthoCamera.width c) / 2) right)
                 (Eigen.scale (y - IZR (OrthoCamera.height c) / 2) up)) in
  (forall x1 y1 x2 y2 : R,
      OrthoCamera.ray_c_f c x1 y1 = vec3 0 0 1 /\
      OrthoCamera.ray_c_f c x2 y2 = vec3 0 0 1 /\
      OrthoCamera.ray_w_f c x1 y1 = forward /\
      OrthoCamera.ray_w_f c x2 y2 = forward /\
      OrthoCamera.org_ray_w_f c x1 y1 = origin x1 y1 /\
      OrthoCamera.org_ray_w_f c x2 y2 = origin x2 y2 /\
      Eigen.sub (OrthoCamera.org_ray_w_f c x2 y2)
                (OrthoCamera.org_ray_w_f c x1 y1)
      = Eigen.add (Eigen.scale (x2 - x1) right) (Eigen.scale (y2 - y1) up)) /\
  (ortho_consistent c ->
   forall x1 y1 x2 y2 : Z,
     (0 <= x1 < OrthoCamera.width c)%Z -> (0 <= y1 < OrthoCamera.height c)%Z ->
     (0 <= x2 < OrthoCamera.width c)%Z -> (0 <= y2 < OrthoCamera.height c)%Z ->
     OrthoCamera.ray_c_i c x1 y1 = Ok (vec3 0 0 1) /\
     OrthoCamera.ray_c_i c x2 y2 = Ok (vec3 0 0 1) /\
     OrthoCamera.ray_w_i c x1 y1 = Ok forward /\
     OrthoCamera.ray_w_i c x2 y2 = Ok forward /\
     OrthoCamera.org_ray_w_i c x1 y1 = Ok (origin (IZR x1) (IZR y1)) /\
     OrthoCamera.org_ray_w_i c x2 y2 = Ok (origin (IZR x2) (IZR y2)) /\
     Eigen.sub (origin (IZR x2) (IZR y2)) (origin (IZR x1) (IZR y1))
     = Eigen.add (Eigen.scale (IZR x2 - IZR x1) right)
                 (Eigen.scale (IZR y2 - IZR y1) up)).
Proof.
  intros Hpose pose right up forward origin.
  assert (forall x y, OrthoCamera.ray_w_f c x y = forward) as Hfw.
  { intros x y. destruct Hpose as (_ & _ & _ & _ & Hz). exact Hz. }
  assert (forall x y, OrthoCamera.org_ray_w_f c x y = origin x y) as Horg.
  { intros x y. by apply ortho_org_ray_w_formula. }
  assert (forall x1 y1 x2 y2,
             Eigen.sub (origin x2 y2) (origin x1 y1)
             = Eigen.add (Eigen.scale (x2 - x1) right)
                         (Eigen.scale (y2 - y1) up)) as Hdiff.
  { intros x1 y1 x2 y2. rewrite <- !Horg.
    by apply ortho_org_ray_w_difference. }
  split.
  - intros x1 y1 x2 y2.
    rewrite !Hfw, !Horg. repeat split; try reflexivity. apply Hdiff.
  - intros [_ Htab] x1 y1 x2 y2 Hx1 Hy1 Hx2 Hy2.
    destruct (Htab x1 y1 Hx1 Hy1) as (_ & -> & -> & ->).
    destruct (Htab x2 y2 Hx2 Hy2) as (_ & -> & -> & ->).
    rewrite !Hfw, !Horg. repeat split; try reflexivity. apply Hdiff.
Qed.

Lemma ortho_rays_parallel_witness :
  exists c,
    OrthoCamera.new_pose 4 2 sample_pose = Ok c /\
    OrthoCamera.ray_w_f c 0 0 = OrthoCamera.ray_w_f c 3 1 /\
    OrthoCamera.ray_w_i c 0 0 = OrthoCamera.ray_w_i c 3 1.
Proof.
  destruct sample_ortho_built as (c & Hrun & Hpose & [Hw Hh] & Hc).
  exists c. split; [exact Hrun |].
  destruct (ortho_rays_parallel c Hpose) as [Hcont Htab].
  split.
  - destruct (Hcont 0 0 3 1) as (_ & _ & -> & -> & _). reflexivity.
  - destruct (Htab Hc 0%Z 0%Z 3%Z 1%Z) as (_ & _ & -> & -> & _);
      rewrite ?Hw, ?Hh; [lia | lia | lia | lia | reflexivity].
Defined.

Lemma even_half (n : Z) : Z.Even n -> IZR (Z.quot n 2) = IZR n * 0.5.
Proof.
  intros [k ->]. rewrite (Z.mul_comm 2 k), Z.quot_mul by lia.
  rewrite mult_IZR. lra.
Qed.

(** C9. For an orthographic camera of even width and even height, the
    world-frame ray origin is the camera-frame ray origin carried by the
    rigid camera-to-world transform:
    [org_ray_w(x, y) = c2w_rotation * org_ray_c(x, y) + c2w_translation],
    for the continuous accessors and for the table lookups. *)
Theorem ortho_origin_rigid (c : OrthoCamera.t) :
  pose_cached (OrthoCamera.base c) ->
  Z.Even (OrthoCamera.width c) -> Z.Even (OrthoCamera.height c) ->
  let pose := Camera.c2w (OrthoCamera.base c) in
  (forall x y : R,
      OrthoCamera.org_ray_w_f c x y
      = Eigen.add (Eigen.mul (linear pose) (OrthoCamera.org_ray_c_f c x y))
                  (translation pose)) /\
  (ortho_consistent c ->
   forall x y : Z,
     (0 <= x < OrthoCamera.width c)%Z -> (0 <= y < OrthoCamera.height c)%Z ->
     exists org_c org_w,
       OrthoCamera.org_ray_c_i c x y = Ok org_c /\
       OrthoCamera.org_ray_w_i c x y = Ok org_w /\
       org_w = Eigen.add (Eigen.mul (linear pose) org_c) (translation pose)).
Proof.
  intros Hpose Hw Hh pose.
  assert (forall x y : R,
             OrthoCamera.org_ray_w_f c x y
             = Eigen.add (Eigen.mul (linear pose) (OrthoCamera.org_ray_c_f c x y))
                         (translation pose)) as Hcont.
  { intros x y. rewrite ortho_org_ray_w_formula by exact Hpose.
    unfold OrthoCamera.org_ray_c_f.
    rewrite (even_half _ Hw), (even_half _ Hh), half_literal.
    fold pose. destruct (linear pose), (translation pose).
    unfold Eigen.add, Eigen.mul, Eigen.scale. simpl.
    f_equal; field. }
  split; [exact Hcont |].
  intros [_ Htab] x y Hx Hy.
  destruct (Htab x y Hx Hy) as (Hc & Hw' & _).
  eexists _, _. split; [exact Hc |]. split; [exact Hw' |]. apply Hcont.
Qed.

Lemma ortho_origin_rigid_witness :
  exists c,
    OrthoCamera.new_pose 4 2 sample_pose = Ok c /\
    OrthoCamera.org_ray_w_f c 3 1
    = Eigen.add
        (Eigen.mul (linear (Camera.c2w (OrthoCamera.base c)))
                   (OrthoCamera.org_ray_c_f c 3 1))
        (translation (Camera.c2w (OrthoCamera.base c))) /\
    exists org_c org_w,
      OrthoCamera.org_ray_c_i c 3 1 = Ok org_c /\
      OrthoCamera.org_ray_w_i c 3 1 = Ok org_w /\
      org_w = Eigen.add
                (Eigen.mul (linear (Camera.c2w (OrthoCamera.base c))) org_c)
                (translation (Camera.c2w (OrthoCamera.base c))).
Proof.
  destruct sample_ortho_built as (c & Hrun & Hpose & [Hw Hh] & Hc).
  exists c. split; [exact Hrun |].
  destruct (ortho_origin_rigid c Hpose) as [Hcont Htab].
  - rewrite Hw. by exists 2%Z.
  - rewrite Hh. by exists 1%Z.
  - split; [apply (Hcont 3 1) |].
    apply (Htab Hc 3%Z 1%Z); rewrite ?Hw, ?Hh; lia.
Defined.

(** Evenness is needed: with an odd width the truncated half-extent of
    the camera frame is not the exact half-extent of the world frame. *)
Lemma ortho_origin_odd_width_differs :
  let c := OrthoCamera.mk (Camera.new_pose 3 2 Eigen.Identity) no_tables in
  OrthoCamera.org_ray_w_f c 0 0
  <> Eigen.add
       (Eigen.mul (linear (Camera.c2w (OrthoCamera.base c)))
                  (OrthoCamera.org_ray_c_f c 0 0))
       (translation (Camera.c2w (OrthoCamera.base c))).
Proof.
  intros c Heq.
  apply (f_equal x3) in Heq.
  unfold c, OrthoCamera.org_ray_w_f, OrthoCamera.org_ray_c_f in Heq.
  simpl in Heq.
  change (OrthoCamera.width _) with 3%Z in Heq.
  change (OrthoCamera.height _) with 2%Z in Heq.
  change (Z.quot 3 2) with 1%Z in Heq.
  change (Z.quot 2 2) with 1%Z in Heq.
  lra.
Qed.
End OrthoRays.

(** ** Readiness of the renderer *)

Lemma img_init_at {A : Type} (w h : Z) (f : Z -> Z -> A) (x y : Z) :
  0 <= x < w -> 0 <= y < h -> img_at (img_init w h f) x y = Some (f x y).
Proof.
  intros Hx Hy. unfold img_at, img_init. simpl.
  destruct (Z.leb_spec 0 x); [| lia].
  destruct (Z.ltb_spec x w); [| lia].
  destruct (Z.leb_spec 0 y); [| lia].
  destruct (Z.ltb_spec y h); [| lia]. simpl.
  replace (Z.to_nat (y * w + x))
    with (Z.to_nat y * Z.to_nat w + Z.to_nat x)%nat by nia.
  apply join_lookup_Some_same_length'.
  - apply Forall_fmap, Forall_forall. intros y' _. simpl.
    by rewrite length_fmap, length_seqZ.
  - lia.
  - exists ((fun x => f x y) <$> seqZ 0 w). split.
    + rewrite list_lookup_fmap, lookup_seqZ_lt by lia.
      rewrite Z2Nat.id by lia. reflexivity.
    + rewrite list_lookup_fmap, lookup_seqZ_lt by lia.
      rewrite Z2Nat.id by lia. reflexivity.
Qed.

Section RendererReadiness.
Context {Mesh : Type}.
Variable build : Mesh -> bool.
Variable shade :
  RendererOption -> Mesh -> AnyCamera -> Z -> Z -> option ((Z * Z * Z) * Z).

Implicit Types (r : Renderer.t Mesh) (calls : list (Renderer.call Mesh)).

Lemma run_cons c calls r :
  Renderer.run build (c :: calls) r
  = Renderer.run build calls (Renderer.step build r c).
Proof. reflexivity. Qed.

Lemma camera_needs_set_camera calls r :
  Renderer.camera_ r = None ->
  existsb (@Renderer.is_set_camera Mesh) calls = false ->
  Renderer.camera_ (Renderer.run build calls r) = None.
Proof.
  revert r. induction calls as [| c calls IH]; intros r Hr Hno; [exact Hr |].
  simpl in Hno. apply orb_false_iff in Hno as [Hc Hrest].
  rewrite run_cons. apply IH; [| exact Hrest].
  destruct c; simpl in *; try done.
  unfold Renderer.prepare_mesh.
  destruct (Renderer.mesh_ r) as [m |]; [destruct (build m) |]; done.
Qed.

Lemma initialized_needs_prepare calls r :
  Renderer.mesh_initialized_ r = false ->
  Renderer.prepared_along build calls r = false ->
  Renderer.mesh_initialized_ (Renderer.run build calls r) = false.
Proof.
  revert r. induction calls as [| c calls IH]; intros r Hr Hno; [exact Hr |].
  simpl in Hno. apply orb_false_iff in Hno as [Hc Hrest].
  rewrite run_cons. apply IH; [| exact Hrest].
  destruct c; simpl in *; try done.
  unfold Renderer.prepare_mesh in *.
  destruct (Renderer.mesh_ r) as [m |]; [destruct (build m) |]; done.
Qed.

(** A prepared renderer holds the mesh it was prepared for. *)
Lemma initialized_has_mesh calls r :
  (Renderer.mesh_initialized_ r = true -> Renderer.mesh_ r <> None) ->
  Renderer.mesh_initialized_ (Renderer.run build calls r) = true ->
  Renderer.mesh_ (Renderer.run build calls r) <> None.
Proof.
  revert r. induction calls as [| c calls IH]; intros r Hr; [exact Hr |].
  rewrite run_cons. apply IH.
  destruct c; simpl; try done.
  unfold Renderer.prepare_mesh.
  destruct (Renderer.mesh_ r) as [m |] eqn:Hm; [destruct (build m) |];
    simpl; try done.
  rewrite Hm. exact Hr.
Qed.

(** C8. On a renderer reached from a fresh one by any history of calls:
    if no [prepare_mesh] of the history succeeded, or the history holds
    no [set_camera], or simply the mesh is not initialised or the camera
    is missing, [render] returns [false] and hands the three images back
    untouched; otherwise it returns [true] with the three images
    allocated at the camera's resolution and every pixel of them
    produced by the pipeline. *)
Theorem render_requires_readiness (option : RendererOption) calls
        (out : Renderer.Outputs) :
  let r := Renderer.run build calls (Renderer.new_with Mesh option) in
  (Renderer.prepared_along build calls (Renderer.new_with Mesh option) = false \/
   existsb (@Renderer.is_set_camera Mesh) calls = false \/
   Renderer.mesh_initialized_ r = false \/
   Renderer.camera_ r = None ->
   Renderer.render shade r out = (false, out)) /\
  (forall camera,
      Renderer.mesh_initialized_ r = true ->
      Renderer.camera_ r = Some camera ->
      exists mesh out',
        Renderer.mesh_ r = Some mesh /\
        Renderer.render shade r out = (true, out') /\
        let w := camera_width camera in
        let h := camera_height camera in
        let hit := shade (Renderer.option_ r) mesh camera in
        (img_width (Renderer.color out'), img_height (Renderer.color out')) = (w, h) /\
        (img_width (Renderer.depth out'), img_height (Renderer.depth out')) = (w, h) /\
        (img_width (Renderer.mask out'), img_height (Renderer.mask out')) = (w, h) /\
        forall x y, 0 <= x < w -> 0 <= y < h ->
          img_at (Renderer.color out') x y
          = Some (match hit x y with
                  | Some (c, _) => c
                  | None => Renderer.background
                  end) /\
          img_at (Renderer.depth out') x y
          = Some (match hit x y with Some (_, d) => d | None => 0 end) /\
          img_at (Renderer.mask out') x y
          = Some (match hit x y with Some _ => 1 | None => 0 end)).
Proof.
  intros r. split.
  - intros Hnot.
    assert (Renderer.mesh_initialized_ r = false \/ Renderer.camera_ r = None)
      as [Hm | Hc].
    { destruct Hnot as [Hp | [Hs | [Hm | Hc]]]; [left | right | by left | by right].
      - by apply initialized_needs_prepare.
      - by apply camera_needs_set_camera. }
    + unfold Renderer.render. rewrite Hm.
      by destruct (Renderer.camera_ r), (Renderer.mesh_ r).
    + unfold Renderer.render. by rewrite Hc.
  - intros camera Hm Hc.
    destruct (Renderer.mesh_ r) as [mesh |] eqn:Hmesh.
    2:{ exfalso. revert Hmesh.
        apply (initialized_has_mesh calls (Renderer.new_with Mesh option));
          [done | exact Hm]. }
    eexists mesh, _. split; [reflexivity |].
    split; [unfold Renderer.render; rewrite Hc, Hmesh, Hm; reflexivity |].
    simpl. do 3 (split; [reflexivity |]).
    intros x y Hx Hy. repeat split; by apply img_init_at.
Qed.
End RendererReadiness.

Lemma render_requires_readiness_witness :
  Renderer.render (fun _ _ _ _ _ => None)
    (Renderer.run (fun _ => true) sample_calls
       (Renderer.new_with unit default_option))
    sample_outputs
  = (false, sample_outputs) /\
  exists out',
    Renderer.render (fun _ _ _ x y => Some ((1, 2, 3), x + y))
      (Renderer.run (fun _ => true) (sample_calls ++ [Renderer.PrepareMesh])
         (Renderer.new_with unit default_option))
      sample_outputs
    = (true, out') /\
    img_at (Renderer.depth out') 3 1 = Some 4.
Proof.
  split.
  - apply (render_requires_readiness (fun _ => true) (fun _ _ _ _ _ => None)
             default_option sample_calls).
    left. reflexivity.
  - destruct (render_requires_readiness (fun _ => true)
                (fun _ _ _ x y => Some ((1, 2, 3), x + y))
                default_option (sample_calls ++ [Renderer.PrepareMesh])
                sample_outputs) as [_ Hready].
    destruct (Hready (Ortho sample_ortho) eq_refl eq_refl)
      as (mesh & out' & _ & Hrun & _ & _ & _ & Hpix).
    exists out'. split; [exact Hrun |].
    destruct (Hpix 3 1) as (_ & Hd & _); [by vm_compute | by vm_compute |].
    exact Hd.
Defined.


(** * Further properties of the cameras *)

(** ** Projection *)

Section MoreProjection.
Local Open Scope R_scope.

(** X1. Pinhole [Unproject] followed by [Project] gives the image point and
    the depth back, for every depth other than zero (also a negative one)
    and non-zero focal lengths. *)
Theorem pinhole_unproject_project (c : PinholeCamera.t)
        (image_p : Vector2f) (d : R) :
  x2 (PinholeCamera.focal_length c) <> 0 ->
  y2 (PinholeCamera.focal_length c) <> 0 ->
  d <> 0 ->
  PinholeCamera.Project2d c (PinholeCamera.Unproject2d c image_p d)
  = (image_p, d) /\
  PinholeCamera.Project2 c (PinholeCamera.Unproject2d c image_p d) = image_p /\
  PinholeCamera.Project3 c
    (PinholeCamera.Unproject3 c (vec3 (x2 image_p) (y2 image_p) d))
  = vec3 (x2 image_p) (y2 image_p) d.
Proof.
  intros Hfx Hfy Hd. destruct image_p as [ix iy].
  unfold PinholeCamera.focal_length in *.
  unfold PinholeCamera.Project2d, PinholeCamera.Project2,
    PinholeCamera.Project3, PinholeCamera.Unproject2d,
    PinholeCamera.Unproject3. simpl.
  repeat split; f_equal; try f_equal; field; split; assumption.
Qed.

Lemma pinhole_unproject_project_witness :
  PinholeCamera.Project2 sample_pinhole
    (PinholeCamera.Unproject2d sample_pinhole (vec2 3 1) (-4))
  = vec2 3 1.
Proof.
  refine (proj1 (proj2 (pinhole_unproject_project sample_pinhole (vec2 3 1) (-4)
                          _ _ _))); simpl; lra.
Defined.

(** X2. The pinhole projection is blind to the scale of a point: every
    non-zero multiple of a point with non-zero depth has the same image
    point, and its reported depth is multiplied by the factor. *)
Theorem pinhole_project_scale (c : PinholeCamera.t) (p : Vector3f) (k : R) :
  k <> 0 -> z3 p <> 0 ->
  PinholeCamera.Project2 c (Eigen.scale k p) = PinholeCamera.Project2 c p /\
  PinholeCamera.Project2d c (Eigen.scale k p)
  = (PinholeCamera.Project2 c p, k * z3 p).
Proof.
  intros Hk Hz. destruct p as [px py pz]. simpl in Hz.
  unfold PinholeCamera.Project2, PinholeCamera.Project2d, Eigen.scale. simpl.
  repeat split; f_equal; try f_equal; field; split; assumption.
Qed.

Lemma pinhole_project_scale_witness :
  PinholeCamera.Project2 sample_pinhole (Eigen.scale 5 (vec3 1 2 4))
  = PinholeCamera.Project2 sample_pinhole (vec3 1 2 4).
Proof.
  refine (proj1 (pinhole_project_scale sample_pinhole (vec3 1 2 4) 5 _ _));
    simpl; lra.
Defined.

(** X3. The orthographic camera projects without any condition on the
    depth: [Project] and [Unproject] are inverse in both directions for
    every point, every image point and every depth, and the image point
    does not depend on the depth of the point. *)
Theorem ortho_project_unproject (c : OrthoCamera.t) :
  (forall p : Vector3f,
      OrthoCamera.Unproject3 c (OrthoCamera.Project3 c p) = p /\
      OrthoCamera.Unproject2d c (fst (OrthoCamera.Project2d c p))
        (snd (OrthoCamera.Project2d c p)) = p) /\
  (forall (image_p : Vector2f) (d : R),
      OrthoCamera.Project2d c (OrthoCamera.Unproject2d c image_p d)
      = (image_p, d)) /\
  (forall x y z z' : R,
      OrthoCamera.Project2 c (vec3 x y z) = OrthoCamera.Project2 c (vec3 x y z')).
Proof.
  split; [| split].
  - intros [px py pz]. split; reflexivity.
  - intros [ix iy] d. reflexivity.
  - reflexivity.
Qed.

(** X4. The pinhole rays and the projection agree: every point on the
    camera-frame ray through the sub-pixel [(x, y)], other than the
    centre, projects to [(x, y)]; and [Unproject] of [(x, y)] at depth [d]
    is the point of that ray with third coordinate [d]. *)
Theorem pinhole_ray_projects_to_pixel (c : PinholeCamera.t) (x y : R) :
  x2 (PinholeCamera.focal_length c) <> 0 ->
  y2 (PinholeCamera.focal_length c) <> 0 ->
  (forall t : R, t <> 0 ->
      PinholeCamera.Project2 c (Eigen.scale t (PinholeCamera.ray_c_f c x y))
      = vec2 x y) /\
  (forall d : R,
      PinholeCamera.Unproject2d c (vec2 x y) d
      = Eigen.scale (d * Eigen.norm (spec_direction c x y))
          (PinholeCamera.ray_c_f c x y)).
Proof.
  intros Hfx Hfy. unfold PinholeCamera.focal_length in *.
  unfold PinholeCamera.ray_c_f.
  set (a := (x - x2 (PinholeCamera.principal_point_ c))
            / x2 (PinholeCamera.focal_length_ c)).
  set (b := (y - y2 (PinholeCamera.principal_point_ c))
            / y2 (PinholeCamera.focal_length_ c)).
  rewrite normalize_direction.
  pose proof (sqrt_lt_R0 _ (direction_squaredNorm_pos a b)) as Hn.
  change (spec_direction c x y) with (vec3 a b 1).
  fold (Eigen.norm (vec3 a b 1)) in Hn.
  set (n := Eigen.norm (vec3 a b 1)) in *.
  split.
  - intros t Ht.
    unfold PinholeCamera.Project2, Eigen.scale, Eigen.div. simpl.
    subst a b. f_equal; field; repeat split; lra.
  - intros d.
    unfold PinholeCamera.Unproject2d, Eigen.scale, Eigen.div. simpl.
    subst a b. f_equal; field; repeat split; lra.
Qed.

Lemma pinhole_ray_projects_to_pixel_witness :
  PinholeCamera.Project2 sample_pinhole
    (Eigen.scale 7 (PinholeCamera.ray_c_f sample_pinhole 3 1))
  = vec2 3 1.
Proof.
  refine (proj1 (pinhole_ray_projects_to_pixel sample_pinhole 3 1 _ _) 7 _);
    simpl; lra.
Defined.

(** X5. For the orthographic camera the image point of a ray point is not
    the pixel the ray belongs to: a point at distance [t] along the
    camera-frame ray of [(x, y)] projects to
    [(x - width / 2, y - height / 2)], the halves being truncated [int]
    quotients, at depth [t]. *)
Theorem ortho_ray_projects_to_offset (c : OrthoCamera.t) (x y t : R) :
  OrthoCamera.Project2d c
    (Eigen.add (OrthoCamera.org_ray_c_f c x y)
               (Eigen.scale t (OrthoCamera.ray_c_f c x y)))
  = (vec2 (x - IZR (Z.quot (OrthoCamera.width c) 2))
          (y - IZR (Z.quot (OrthoCamera.height c) 2)),
     t).
Proof.
  unfold OrthoCamera.Project2d, OrthoCamera.org_ray_c_f, OrthoCamera.ray_c_f,
    Eigen.add, Eigen.scale. simpl.
  f_equal; [f_equal |]; lra.
Qed.

(** X6. For non-zero focal lengths a camera-frame pinhole ray points
    forward, its third coordinate lying in (0, 1], and the ray through the
    principal point is the optical axis [(0, 0, 1)]. *)
Theorem pinhole_ray_points_forward (c : PinholeCamera.t) :
  x2 (PinholeCamera.focal_length c) <> 0 ->
  y2 (PinholeCamera.focal_length c) <> 0 ->
  (forall x y : R, 0 < z3 (PinholeCamera.ray_c_f c x y) <= 1) /\
  PinholeCamera.ray_c_f c (x2 (PinholeCamera.principal_point c))
                          (y2 (PinholeCamera.principal_point c))
  = vec3 0 0 1.
Proof.
  unfold PinholeCamera.focal_length. intros Hfx Hfy.
  split.
  - intros x y. unfold PinholeCamera.ray_c_f.
    set (a := (x - x2 (PinholeCamera.principal_point_ c))
              / x2 (PinholeCamera.focal_length_ c)).
    set (b := (y - y2 (PinholeCamera.principal_point_ c))
              / y2 (PinholeCamera.focal_length_ c)).
    rewrite normalize_direction.
    pose proof (direction_squaredNorm_pos a b) as Hz.
    pose proof (sqrt_lt_R0 _ Hz) as Hn.
    assert (1 <= sqrt (Eigen.squaredNorm (vec3 a b 1))) as Hge.
    { rewrite <- sqrt_1 at 1. apply sqrt_le_1; [lra | lra |].
      unfold Eigen.squaredNorm, Eigen.dot. simpl.
      pose proof (Rle_0_sqr a) as Ha. pose proof (Rle_0_sqr b) as Hb.
      unfold Rsqr in *. lra. }
    unfold Eigen.norm, Eigen.div. simpl.
    set (n := sqrt (Eigen.squaredNorm (vec3 a b 1))) in *.
    split.
    + apply Rdiv_lt_0_compat; lra.
    + apply (Rmult_le_reg_r n); [exact Hn |].
      replace (1 / n * n) with 1 by (field; lra). lra.
  - unfold PinholeCamera.ray_c_f, PinholeCamera.principal_point.
    replace ((x2 (PinholeCamera.principal_point_ c)
              - x2 (PinholeCamera.principal_point_ c))
             / x2 (PinholeCamera.focal_length_ c)) with 0
      by (field; exact Hfx).
    replace ((y2 (PinholeCamera.principal_point_ c)
              - y2 (PinholeCamera.principal_point_ c))
             / y2 (PinholeCamera.focal_length_ c)) with 0
      by (field; exact Hfy).
    rewrite normalize_direction.
    unfold Eigen.norm, Eigen.squaredNorm, Eigen.dot, Eigen.div. simpl.
    replace (0 * 0 + 0 * 0 + 1 * 1) with 1 by ring.
    rewrite sqrt_1. f_equal; field.
Qed.

Lemma pinhole_ray_points_forward_witness :
  (0 < z3 (PinholeCamera.ray_c_f sample_pinhole 3 1) <= 1) /\
  PinholeCamera.ray_c_f sample_pinhole 1.5 0.5 = vec3 0 0 1.
Proof.
  destruct (pinhole_ray_points_forward sample_pinhole) as [Hfwd Haxis].
  - simpl. lra.
  - simpl. lra.
  - split; [exact (Hfwd 3 1) | exact Haxis].
Defined.
End MoreProjection.

(** ** Rays under a rigid pose *)

Section RigidPose.
Local Open Scope R_scope.

Lemma orthonormal_preserves_squaredNorm (m : Matrix3f) (v : Vector3f) :
  orthonormal m ->
  Eigen.squaredNorm (Eigen.mul m v) = Eigen.squaredNorm v.
Proof.
  intros (H00 & H11 & H22 & H01 & H02 & H12).
  destruct m as [a00 a01 a02 a10 a11 a12 a20 a21 a22], v as [x y z].
  unfold Eigen.squaredNorm, Eigen.dot, Eigen.mul, Eigen.col in *. simpl in *.
  replace ((a00 * x + a01 * y + a02 * z) * (a00 * x + a01 * y + a02 * z)
           + (a10 * x + a11 * y + a12 * z) * (a10 * x + a11 * y + a12 * z)
           + (a20 * x + a21 * y + a22 * z) * (a20 * x + a21 * y + a22 * z))
    with (x * x * (a00 * a00 + a10 * a10 + a20 * a20)
          + y * y * (a01 * a01 + a11 * a11 + a21 * a21)
          + z * z * (a02 * a02 + a12 * a12 + a22 * a22)
          + 2 * x * y * (a00 * a01 + a10 * a11 + a20 * a21)
          + 2 * x * z * (a00 * a02 + a10 * a12 + a20 * a22)
          + 2 * y * z * (a01 * a02 + a11 * a12 + a21 * a22)) by ring.
  rewrite H00, H11, H22, H01, H02, H12. ring.
Qed.

Lemma sample_pose_orthonormal : orthonormal (linear sample_pose).
Proof.
  unfold orthonormal, Eigen.dot, Eigen.col. simpl. repeat split; lra.
Qed.

(** X7. When the rotation of the pose is orthonormal, the world-frame ray
    of either camera has unit length at every sub-pixel. *)
Theorem world_rays_unit (p : PinholeCamera.t) (o : OrthoCamera.t) :
  pose_cached (PinholeCamera.base p) ->
  orthonormal (linear (Camera.c2w (PinholeCamera.base p))) ->
  pose_cached (OrthoCamera.base o) ->
  orthonormal (linear (Camera.c2w (OrthoCamera.base o))) ->
  forall x y : R,
    Eigen.norm (PinholeCamera.ray_w_f p x y) = 1 /\
    Eigen.norm (OrthoCamera.ray_w_f o x y) = 1.
Proof.
  intros (HR & _) Hp (_ & _ & _ & _ & Hz) (_ & _ & H22 & _) x y.
  split.
  - unfold PinholeCamera.ray_w_f, Eigen.norm. rewrite HR.
    rewrite orthonormal_preserves_squaredNorm by exact Hp.
    apply normalize_direction_unit.
  - unfold OrthoCamera.ray_w_f, Eigen.norm, Eigen.squaredNorm.
    rewrite Hz. unfold Camera.c2w in H22. rewrite H22. apply sqrt_1.
Qed.

Lemma world_rays_unit_witness :
  Eigen.norm (PinholeCamera.ray_w_f sample_pinhole 3 1) = 1 /\
  Eigen.norm (OrthoCamera.ray_w_f sample_ortho 3 1) = 1.
Proof.
  refine (world_rays_unit sample_pinhole sample_ortho _ _ _ _ 3 1).
  - apply pose_cached_new_pose.
  - exact sample_pose_orthonormal.
  - apply pose_cached_new_pose.
  - exact sample_pose_orthonormal.
Defined.

(** X8. When the rotation of the pose is orthonormal, the world-frame ray
    origins of the orthographic camera all lie in the plane through the
    camera position that is perpendicular to the common ray direction. *)
Theorem ortho_origins_coplanar (c : OrthoCamera.t) (x y : R) :
  pose_cached (OrthoCamera.base c) ->
  orthonormal (linear (Camera.c2w (OrthoCamera.base c))) ->
  Eigen.dot (Eigen.sub (OrthoCamera.org_ray_w_f c x y)
                       (translation (Camera.c2w (OrthoCamera.base c))))
            (OrthoCamera.ray_w_f c x y) = 0.
Proof.
  intros Hpose (_ & _ & _ & _ & H02 & H12).
  rewrite ortho_org_ray_w_formula by exact Hpose.
  destruct Hpose as (_ & _ & _ & _ & Hz).
  unfold OrthoCamera.ray_w_f. rewrite Hz.
  unfold Camera.c2w in *.
  destruct (linear (Camera.c2w_ (OrthoCamera.base c)))
    as [a00 a01 a02 a10 a11 a12 a20 a21 a22].
  destruct (translation (Camera.c2w_ (OrthoCamera.base c))) as [tx ty tz].
  unfold Eigen.dot, Eigen.sub, Eigen.add, Eigen.scale, Eigen.col in *.
  simpl in *.
  set (u := x - IZR (OrthoCamera.width c) / 2).
  set (v := y - IZR (OrthoCamera.height c) / 2).
  replace ((tx + (u * a00 + v * a01) - tx) * a02
           + (ty + (u * a10 + v * a11) - ty) * a12
           + (tz + (u * a20 + v * a21) - tz) * a22)
    with (u * (a00 * a02 + a10 * a12 + a20 * a22)
          + v * (a01 * a02 + a11 * a12 + a21 * a22)) by ring.
  rewrite H02, H12. ring.
Qed.

Lemma ortho_origins_coplanar_witness :
  Eigen.dot (Eigen.sub (OrthoCamera.org_ray_w_f sample_ortho 3 1)
                       (translation (Camera.c2w (OrthoCamera.base sample_ortho))))
            (OrthoCamera.ray_w_f sample_ortho 3 1) = 0.
Proof.
  refine (ortho_origins_coplanar sample_ortho 3 1 _ _).
  - apply pose_cached_new_pose.
  - exact sample_pose_orthonormal.
Defined.

Lemma inverse3_left (m : Matrix3f) (v : Vector3f) :
  Eigen.determinant m <> 0 ->
  Eigen.mul (Eigen.inverse3 m) (Eigen.mul m v) = v.
Proof.
  intros Hdet.
  destruct m as [a00 a01 a02 a10 a11 a12 a20 a21 a22], v as [x y z].
  cbv [Eigen.determinant Eigen.mul Eigen.inverse3
       m00 m01 m02 m10 m11 m12 m20 m21 m22 x3 y3 z3] in *.
  f_equal; field; exact Hdet.
Qed.

Lemma inverse3_right (m : Matrix3f) (v : Vector3f) :
  Eigen.determinant m <> 0 ->
  Eigen.mul m (Eigen.mul (Eigen.inverse3 m) v) = v.
Proof.
  intros Hdet.
  destruct m as [a00 a01 a02 a10 a11 a12 a20 a21 a22], v as [x y z].
  cbv [Eigen.determinant Eigen.mul Eigen.inverse3
       m00 m01 m02 m10 m11 m12 m20 m21 m22 x3 y3 z3] in *.
  f_equal; field; exact Hdet.
Qed.

Lemma mul_add_distr (m : Matrix3f) (u v : Vector3f) :
  Eigen.mul m (Eigen.add u v) = Eigen.add (Eigen.mul m u) (Eigen.mul m v).
Proof.
  destruct u, v. unfold Eigen.mul, Eigen.add. simpl. f_equal; ring.
Qed.

Lemma mul_neg_distr (m : Matrix3f) (u : Vector3f) :
  Eigen.mul m (Eigen.neg u) = Eigen.neg (Eigen.mul m u).
Proof.
  destruct u. unfold Eigen.mul, Eigen.neg. simpl. f_equal; ring.
Qed.

Lemma add_neg_cancel (u v : Vector3f) :
  Eigen.add (Eigen.add u v) (Eigen.neg v) = u /\
  Eigen.add (Eigen.add u (Eigen.neg v)) v = u.
Proof.
  destruct u, v. unfold Eigen.add, Eigen.neg. simpl.
  split; f_equal; ring.
Qed.

(** X9. [Camera::set_c2w] stores as [w2c] the inverse of the pose it is
    given: when the linear part of the pose has a non-zero determinant,
    carrying a point to the world and back, or from the world and back,
    returns the point, and the [float] copies of [w2c] do the same as
    [w2c] itself. *)
Theorem set_c2w_stores_inverse (a : Affine3d) (b : Camera.t) (p : Vector3f) :
  Eigen.determinant (linear a) <> 0 ->
  let b' := Camera.set_c2w a b in
  Camera.c2w b' = a /\
  transform (Camera.w2c b') (transform (Camera.c2w b') p) = p /\
  transform (Camera.c2w b') (transform (Camera.w2c b') p) = p /\
  Eigen.add (Eigen.mul (Camera.w2c_R_f_ b')
               (Eigen.add (Eigen.mul (Camera.c2w_R_f_ b') p) (Camera.c2w_t_f_ b')))
            (Camera.w2c_t_f_ b') = p.
Proof.
  intros Hdet b'.
  assert (transform (Eigen.inverse a) (transform a p) = p) as Hback.
  { unfold transform, Eigen.inverse. cbn [linear translation].
    rewrite mul_add_distr, inverse3_left by exact Hdet.
    apply add_neg_cancel. }
  split; [reflexivity |].
  split; [exact Hback |].
  split; [| exact Hback].
  unfold b', transform, Camera.c2w, Camera.w2c, Camera.set_c2w, Eigen.inverse.
  cbn [Camera.c2w_ Camera.w2c_ linear translation].
  rewrite mul_add_distr, mul_neg_distr, !inverse3_right by exact Hdet.
  apply add_neg_cancel.
Qed.

Lemma set_c2w_stores_inverse_witness :
  transform (Camera.w2c (Camera.set_c2w sample_pose Camera.new))
    (transform (Camera.c2w (Camera.set_c2w sample_pose Camera.new)) (vec3 5 6 7))
  = vec3 5 6 7.
Proof.
  refine (proj1 (proj2 (set_c2w_stores_inverse sample_pose Camera.new
                          (vec3 5 6 7) _))).
  unfold Eigen.determinant. simpl. lra.
Defined.
End RigidPose.

(** ** Field of view and focal length *)

Section MoreFieldOfView.
Local Open Scope R_scope.

Lemma degrees_bound (A : R) :
  - PI / 2 < A < PI / 2 -> -180 < degrees (2 * A) < 180.
Proof.
  intros [Hlo Hhi]. unfold degrees.
  pose proof PI_RGT_0 as Hpi.
  pose proof (Rinv_0_lt_compat _ Hpi) as Hi.
  assert (PI * / PI = 1) as Hone by (field; lra).
  unfold Rdiv in *. set (i := / PI) in *. nra.
Qed.

Lemma half_radians_degrees (A : R) : radians (degrees (2 * A)) * 0.5 = A.
Proof.
  unfold radians, degrees. rewrite half_literal. field. apply PI_neq0.
Qed.

(** X10. With a non-zero focal length the field of view read from a
    pinhole camera lies strictly between -180 and 180 degrees, whatever
    the size; it is positive when the extent and the focal length are. *)
Theorem pinhole_fov_range (c : PinholeCamera.t) :
  (x2 (PinholeCamera.focal_length c) <> 0 ->
   -180 < PinholeCamera.fov_x c < 180) /\
  (y2 (PinholeCamera.focal_length c) <> 0 ->
   -180 < PinholeCamera.fov_y c < 180) /\
  ((0 < PinholeCamera.width c)%Z -> 0 < x2 (PinholeCamera.focal_length c) ->
   0 < PinholeCamera.fov_x c < 180) /\
  ((0 < PinholeCamera.height c)%Z -> 0 < y2 (PinholeCamera.focal_length c) ->
   0 < PinholeCamera.fov_y c < 180).
Proof.
  unfold PinholeCamera.fov_x, PinholeCamera.fov_y, PinholeCamera.focal_length.
  assert (forall a : R, -180 < degrees (2 * atan a) < 180) as Hbound.
  { intros a. apply degrees_bound. pose proof (atan_bound a). lra. }
  assert (forall (e : Z) (f : R), (0 < e)%Z -> 0 < f ->
             0 < degrees (2 * atan (IZR e * 0.5 / f))) as Hpos.
  { intros e f He Hf.
    assert (0 < IZR e) as He' by (apply IZR_lt; exact He).
    assert (0 < IZR e * 0.5 / f) as Ha
      by (apply Rdiv_lt_0_compat; [lra | exact Hf]).
    pose proof (atan_increasing _ _ Ha) as Hinc. rewrite atan_0 in Hinc.
    pose proof PI_RGT_0 as Hpi. unfold degrees.
    apply Rdiv_lt_0_compat; [| exact Hpi]. lra. }
  split; [| split; [| split]].
  - intros _. apply Hbound.
  - intros _. apply Hbound.
  - intros Hw Hf. split; [by apply Hpos | apply Hbound].
  - intros Hh Hf. split; [by apply Hpos | apply Hbound].
Qed.

Lemma pinhole_fov_range_witness :
  -180 < PinholeCamera.fov_y sample_pinhole < 180 /\
  0 < PinholeCamera.fov_x sample_pinhole < 180.
Proof.
  destruct (pinhole_fov_range sample_pinhole) as (_ & Hy & Hx & _).
  split.
  - apply Hy. simpl. lra.
  - apply Hx; [reflexivity | simpl; lra].
Defined.

(** X11. [set_fov_y] also fixes the horizontal field of view, through the
    aspect ratio: afterwards [tan (fov_x / 2) = width / height *
    tan (fov_y / 2)], so that on a square image both fields of view are the
    angle given. *)
Theorem set_fov_y_fixes_fov_x (c : PinholeCamera.t) (deg : R) :
  (0 < PinholeCamera.width c)%Z -> (0 < PinholeCamera.height c)%Z ->
  table_size_ok (PinholeCamera.width c) (PinholeCamera.height c) ->
  0 < deg < 180 ->
  exists c',
    PinholeCamera.set_fov_y deg c = Ok c' /\
    tan (radians (PinholeCamera.fov_x c') * 0.5)
    = IZR (PinholeCamera.width c) / IZR (PinholeCamera.height c)
      * tan (radians deg * 0.5) /\
    (PinholeCamera.width c = PinholeCamera.height c ->
     PinholeCamera.fov_x c' = deg).
Proof.
  intros Hw Hh Hsz Hdeg.
  destruct (pinhole_setter_runs (PinholeCamera.SetFovY deg) c Hsz)
    as (c' & Hrun).
  exists c'. split; [exact Hrun |].
  apply pinhole_InitRayTable_frame in Hrun as (Hb & _ & Hfl).
  unfold PinholeCamera.fov_x, PinholeCamera.width, PinholeCamera.height in *.
  rewrite Hb, Hfl. cbn [PinholeCamera.base PinholeCamera.focal_length_ x2].
  split.
  - rewrite half_radians_degrees, tan_atan.
    pose proof (half_angle_range deg Hdeg) as [Hlo Hhi].
    pose proof (tan_gt_0 _ Hlo Hhi) as Htan.
    assert (0 < IZR (Camera.height_ (PinholeCamera.base c))) as Hh'
      by (apply IZR_lt; exact Hh).
    rewrite half_literal in *. field. split; lra.
  - intros Heq. rewrite Heq. apply fov_of_focal_of_fov; assumption.
Qed.

Lemma set_fov_y_fixes_fov_x_witness :
  exists c',
    PinholeCamera.set_fov_y 60 sample_pinhole = Ok c' /\
    tan (radians (PinholeCamera.fov_x c') * 0.5)
    = IZR (PinholeCamera.width sample_pinhole)
      / IZR (PinholeCamera.height sample_pinhole)
      * tan (radians 60 * 0.5).
Proof.
  destruct (set_fov_y_fixes_fov_x sample_pinhole 60) as (c' & Hrun & Htan & _).
  - reflexivity.
  - reflexivity.
  - exact sample_size_ok.
  - lra.
  - exists c'. split; assumption.
Defined.

(** X12. Reading a field of view and setting it back keeps the focal
    length of that axis and overwrites the one of the other axis with it:
    [set_fov_y (fov_y ())] leaves both channels at the former vertical
    focal length, [set_fov_x (fov_x ())] at the former horizontal one. *)
Theorem set_fov_of_fov (c : PinholeCamera.t) :
  table_size_ok (PinholeCamera.width c) (PinholeCamera.height c) ->
  PinholeCamera.width c <> 0%Z -> PinholeCamera.height c <> 0%Z ->
  x2 (PinholeCamera.focal_length c) <> 0 ->
  y2 (PinholeCamera.focal_length c) <> 0 ->
  (exists c',
      PinholeCamera.set_fov_y (PinholeCamera.fov_y c) c = Ok c' /\
      PinholeCamera.focal_length c'
      = vec2 (y2 (PinholeCamera.focal_length c))
             (y2 (PinholeCamera.focal_length c))) /\
  (exists c',
      PinholeCamera.set_fov_x (PinholeCamera.fov_x c) c = Ok c' /\
      PinholeCamera.focal_length c'
      = vec2 (x2 (PinholeCamera.focal_length c))
             (x2 (PinholeCamera.focal_length c))).
Proof.
  intros Hsz Hw Hh Hfx Hfy.
  assert (forall (e : Z) (f : R), e <> 0%Z -> f <> 0 ->
             IZR e * 0.5
             / tan (radians (degrees (2 * atan (IZR e * 0.5 / f))) * 0.5) = f)
    as Hback.
  { intros e f He Hf. rewrite half_radians_degrees, tan_atan.
    assert (IZR e <> 0) by (apply not_0_IZR; exact He).
    rewrite half_literal. field. split; assumption. }
  split.
  - destruct (pinhole_setter_runs
                (PinholeCamera.SetFovY (PinholeCamera.fov_y c)) c Hsz)
      as (c' & Hrun).
    exists c'. split; [exact Hrun |].
    apply pinhole_InitRayTable_frame in Hrun as (_ & _ & Hfl).
    unfold PinholeCamera.focal_length in *. rewrite Hfl.
    cbn [PinholeCamera.focal_length_]. unfold PinholeCamera.fov_y.
    by rewrite Hback.
  - destruct (pinhole_setter_runs
                (PinholeCamera.SetFovX (PinholeCamera.fov_x c)) c Hsz)
      as (c' & Hrun).
    exists c'. split; [exact Hrun |].
    apply pinhole_InitRayTable_frame in Hrun as (_ & _ & Hfl).
    unfold PinholeCamera.focal_length in *. rewrite Hfl.
    cbn [PinholeCamera.focal_length_]. unfold PinholeCamera.fov_x.
    by rewrite Hback.
Qed.

Lemma set_fov_of_fov_witness :
  exists c',
    PinholeCamera.set_fov_y (PinholeCamera.fov_y sample_pinhole) sample_pinhole
    = Ok c' /\
    PinholeCamera.focal_length c' = vec2 2 2.
Proof.
  refine (proj1 (set_fov_of_fov sample_pinhole _ _ _ _ _)).
  - exact sample_size_ok.
  - discriminate.
  - discriminate.
  - simpl. lra.
  - simpl. lra.
Defined.
End MoreFieldOfView.


(** ** What the rebuilt tables hold *)

Lemma init_ray_table_filled (width height : Z)
      (org_ray_c org_ray_w ray_c ray_w : R -> R -> Vector3f) (tb : RayTables) :
  image_size_ok width height ->
  exists tb',
    init_ray_table width height org_ray_c org_ray_w ray_c ray_w tb = Ok tb' /\
    filled width height org_ray_c org_ray_w ray_c ray_w (width * height) tb'.
Proof.
  intros (Hw & Hh & Hmax). unfold init_ray_table.
  assert (0 <= width * height) as Hlo by nia.
  rewrite wrap_int_small by (unfold int_max in *; lia).
  destruct (vector_resize_sized (width * height) (org_ray_c_table_ tb) Hlo)
    as (v1 & -> & L1).
  destruct (vector_resize_sized (width * height) (org_ray_w_table_ tb) Hlo)
    as (v2 & -> & L2).
  destruct (vector_resize_sized (width * height) (ray_c_table_ tb) Hlo)
    as (v3 & -> & L3).
  destruct (vector_resize_sized (width * height) (ray_w_table_ tb) Hlo)
    as (v4 & -> & L4).
  simpl. apply fill_rows; [done | done | done |]. by repeat split.
Qed.

Lemma entries_table_of (width height : Z) (f : R -> R -> Vector3f)
      (v : list Vector3f) :
  Z.of_nat (length v) = width * height ->
  (forall j, 0 <= j < width * height -> entry_ok width f v j) ->
  v = table_of width height f.
Proof.
  intros Hlen Hent. apply list_eq. intros i. unfold table_of.
  destruct (decide (Z.of_nat i < width * height)) as [Hi | Hi].
  - rewrite list_lookup_fmap, lookup_seqZ_lt by exact Hi. simpl.
    rewrite <- (Nat2Z.id i) at 1. apply Hent. lia.
  - rewrite !lookup_ge_None_2; [done | |].
    + rewrite length_fmap, length_seqZ. lia.
    + lia.
Qed.

Lemma init_ray_table_determined (width height : Z)
      (org_ray_c org_ray_w ray_c ray_w : R -> R -> Vector3f) (tb : RayTables) :
  image_size_ok width height ->
  init_ray_table width height org_ray_c org_ray_w ray_c ray_w tb
  = Ok (tables (table_of width height org_ray_c)
               (table_of width height org_ray_w)
               (table_of width height ray_c)
               (table_of width height ray_w)).
Proof.
  intros Hsz.
  destruct (init_ray_table_filled width height org_ray_c org_ray_w ray_c ray_w
              tb Hsz) as (tb' & -> & (L1 & L2 & L3 & L4) & Hent).
  destruct tb' as [v1 v2 v3 v4]. simpl in *.
  f_equal. f_equal; apply entries_table_of; try done; intros j Hj;
    by destruct (Hent j Hj) as (E1 & E2 & E3 & E4).
Qed.

Lemma pinhole_mutate_store (m : PinholeCamera.mutation) (c : PinholeCamera.t) :
  PinholeCamera.mutate m c = PinholeCamera.InitRayTable (pinhole_store m c).
Proof. destruct m; reflexivity. Qed.

Lemma ortho_mutate_store (m : OrthoCamera.mutation) (c : OrthoCamera.t) :
  OrthoCamera.mutate m c = OrthoCamera.InitRayTable (ortho_store m c).
Proof. destruct m; reflexivity. Qed.

Lemma pinhole_InitRayTable_determined (c : PinholeCamera.t) :
  image_size_ok (PinholeCamera.width c) (PinholeCamera.height c) ->
  PinholeCamera.InitRayTable c = Ok (pinhole_with_tables c (pinhole_tables c)).
Proof.
  intros Hsz. unfold PinholeCamera.InitRayTable.
  by rewrite init_ray_table_determined.
Qed.

Lemma ortho_InitRayTable_determined (c : OrthoCamera.t) :
  image_size_ok (OrthoCamera.width c) (OrthoCamera.height c) ->
  OrthoCamera.InitRayTable c = Ok (ortho_with_tables c (ortho_tables c)).
Proof.
  intros Hsz. unfold OrthoCamera.InitRayTable.
  by rewrite init_ray_table_determined.
Qed.

Lemma sample_image_size_ok : image_size_ok 4 2.
Proof. unfold image_size_ok, int_max. lia. Qed.

(** X13. The tables a mutation leaves behind are the tabulated continuous
    accessors and nothing else: on a size that is non-negative in both
    directions the result of a mutation does not depend on what the tables
    held before, for either camera. *)
Theorem rebuilt_tables_forget_history :
  (forall (m : PinholeCamera.mutation) (c : PinholeCamera.t) (tb : RayTables),
      image_size_ok (PinholeCamera.size_after m c).1
                    (PinholeCamera.size_after m c).2 ->
      PinholeCamera.mutate m (pinhole_with_tables c tb)
      = PinholeCamera.mutate m c /\
      exists c',
        PinholeCamera.mutate m c = Ok c' /\
        PinholeCamera.ray_tables c' = pinhole_tables c') /\
  (forall (m : OrthoCamera.mutation) (c : OrthoCamera.t) (tb : RayTables),
      image_size_ok (OrthoCamera.size_after m c).1
                    (OrthoCamera.size_after m c).2 ->
      OrthoCamera.mutate m (ortho_with_tables c tb) = OrthoCamera.mutate m c /\
      exists c',
        OrthoCamera.mutate m c = Ok c' /\
        OrthoCamera.ray_tables c' = ortho_tables c').
Proof.
  split.
  - intros m c tb Hsz.
    rewrite !pinhole_mutate_store.
    rewrite !pinhole_InitRayTable_determined
      by (destruct m, c; exact Hsz).
    split; [by destruct m, c |].
    eexists. split; [reflexivity |]. by destruct m, c.
  - intros m c tb Hsz.
    rewrite !ortho_mutate_store.
    rewrite !ortho_InitRayTable_determined by (destruct m, c; exact Hsz).
    split; [by destruct m, c |].
    eexists. split; [reflexivity |]. by destruct m, c.
Qed.

Lemma rebuilt_tables_forget_history_witness :
  PinholeCamera.mutate (PinholeCamera.SetC2w Eigen.Identity)
    (pinhole_with_tables sample_pinhole (tables [vec3 1 1 1] [] [] []))
  = PinholeCamera.mutate (PinholeCamera.SetC2w Eigen.Identity) sample_pinhole.
Proof.
  refine (proj1 (proj1 rebuilt_tables_forget_history
                   (PinholeCamera.SetC2w Eigen.Identity) sample_pinhole
                   (tables [vec3 1 1 1] [] [] []) _)).
  exact sample_image_size_ok.
Defined.

(** ** How the setters compose *)

Local Ltac run_setters H1 H2 :=
  unfold PinholeCamera.set_size, PinholeCamera.set_c2w,
    PinholeCamera.set_principal_point, PinholeCamera.set_focal_length,
    PinholeCamera.set_fov_x, PinholeCamera.set_fov_y;
  repeat (rewrite pinhole_InitRayTable_determined
            by first [exact H1 | exact H2];
          cbn [mbind result_bind]).

(** X14. On a pinhole camera whose size is non-negative in both directions:
    a setter applied twice gives what it gives applied once; of two calls
    of the same setter the last one decides; and setters of different
    members commute (principal point and focal length, size and pose). *)
Theorem pinhole_setters_compose (c : PinholeCamera.t) :
  image_size_ok (PinholeCamera.width c) (PinholeCamera.height c) ->
  (forall (m : PinholeCamera.mutation) (c' : PinholeCamera.t),
      image_size_ok (PinholeCamera.size_after m c).1
                    (PinholeCamera.size_after m c).2 ->
      PinholeCamera.mutate m c = Ok c' ->
      PinholeCamera.mutate m c' = Ok c') /\
  (forall f1 f2 : Vector2f,
      PinholeCamera.set_focal_length f1 c ≫= PinholeCamera.set_focal_length f2
      = PinholeCamera.set_focal_length f2 c) /\
  (forall a1 a2 : Affine3d,
      PinholeCamera.set_c2w a1 c ≫= PinholeCamera.set_c2w a2
      = PinholeCamera.set_c2w a2 c) /\
  (forall (p f : Vector2f),
      PinholeCamera.set_principal_point p c ≫= PinholeCamera.set_focal_length f
      = PinholeCamera.set_focal_length f c ≫= PinholeCamera.set_principal_point p) /\
  (forall (w h : Z) (a : Affine3d),
      image_size_ok w h ->
      PinholeCamera.set_size w h c ≫= PinholeCamera.set_c2w a
      = PinholeCamera.set_c2w a c ≫= PinholeCamera.set_size w h).
Proof.
  intros Hsz. destruct c as [b pp fl tb].
  split; [| split; [| split; [| split]]].
  - intros m c' Hm Hrun.
    rewrite pinhole_mutate_store in Hrun.
    rewrite pinhole_InitRayTable_determined in Hrun by (destruct m; exact Hm).
    injection Hrun as <-.
    rewrite pinhole_mutate_store.
    rewrite pinhole_InitRayTable_determined by (destruct m; exact Hm).
    by destruct m, b.
  - intros f1 f2. by run_setters Hsz Hsz.
  - intros a1 a2. by run_setters Hsz Hsz.
  - intros p f. by run_setters Hsz Hsz.
  - intros w h a Hwh. by run_setters Hwh Hsz.
Qed.

Lemma pinhole_setters_compose_witness :
  PinholeCamera.set_principal_point (vec2 0 0) sample_pinhole
    ≫= PinholeCamera.set_focal_length (vec2 3 3)
  = PinholeCamera.set_focal_length (vec2 3 3) sample_pinhole
    ≫= PinholeCamera.set_principal_point (vec2 0 0).
Proof.
  destruct (pinhole_setters_compose sample_pinhole sample_image_size_ok)
    as (_ & _ & _ & Hcomm & _).
  exact (Hcomm (vec2 0 0) (vec2 3 3)).
Defined.

(** ** What a resize keeps *)

Section Resize.
Local Open Scope R_scope.

(** X15. [set_size] keeps the focal length, the principal point and the
    pose as they are: the principal point is not moved to the new centre
    and the field of view follows the new extent,
    [tan (fov_x / 2) = (width / 2) / fx] and
    [tan (fov_y / 2) = (height / 2) / fy]. *)
Theorem set_size_keeps_intrinsics (c : PinholeCamera.t) (w h : Z) :
  table_size_ok w h ->
  exists c',
    PinholeCamera.set_size w h c = Ok c' /\
    PinholeCamera.focal_length c' = PinholeCamera.focal_length c /\
    PinholeCamera.principal_point c' = PinholeCamera.principal_point c /\
    Camera.c2w (PinholeCamera.base c') = Camera.c2w (PinholeCamera.base c) /\
    tan (radians (PinholeCamera.fov_x c') * 0.5)
    = IZR w * 0.5 / x2 (PinholeCamera.focal_length c) /\
    tan (radians (PinholeCamera.fov_y c') * 0.5)
    = IZR h * 0.5 / y2 (PinholeCamera.focal_length c).
Proof.
  intros Hsz.
  destruct (pinhole_setter_runs (PinholeCamera.SetSize w h) c Hsz)
    as (c' & Hrun).
  exists c'. split; [exact Hrun |].
  apply pinhole_InitRayTable_frame in Hrun as (Hb & Hpp & Hfl).
  unfold PinholeCamera.focal_length, PinholeCamera.principal_point,
    PinholeCamera.fov_x, PinholeCamera.fov_y,
    PinholeCamera.width, PinholeCamera.height.
  rewrite Hb, Hpp, Hfl, !half_radians_degrees, !tan_atan.
  by repeat split.
Qed.

Lemma set_size_keeps_intrinsics_witness :
  exists c',
    PinholeCamera.set_size 8 6 sample_pinhole = Ok c' /\
    PinholeCamera.principal_point c' = vec2 1.5 0.5.
Proof.
  destruct (set_size_keeps_intrinsics sample_pinhole 8 6)
    as (c' & Hrun & _ & Hpp & _).
  - unfold table_size_ok, int_max. lia.
  - exists c'. split; assumption.
Defined.
End Resize.

(** ** Lookups outside the image *)

Lemma pixel_index_linear (w x y : Z) :
  - 2 ^ 31 <= y * w <= int_max -> - 2 ^ 31 <= y * w + x <= int_max ->
  pixel_index w x y = y * w + x.
Proof.
  intros Hrow Hidx. unfold pixel_index.
  rewrite (wrap_int_small (y * w)) by exact Hrow.
  by apply wrap_int_small.
Qed.

Lemma lookup_by_linear_index (w h : Z)
      (org_ray_c org_ray_w ray_c ray_w : R -> R -> Vector3f)
      (tb : RayTables) (x y : Z) :
  pixels_ok w h org_ray_c org_ray_w ray_c ray_w tb ->
  0 < w -> w * h <= int_max ->
  - 2 ^ 31 <= y * w <= int_max -> - 2 ^ 31 <= y * w + x <= int_max ->
  let i := y * w + x in
  let at_index (f : R -> R -> Vector3f) := Ok (f (IZR (i mod w)) (IZR (i / w))) in
  (0 <= i < w * h ->
   vector_get (org_ray_c_table_ tb) (pixel_index w x y) = at_index org_ray_c /\
   vector_get (org_ray_w_table_ tb) (pixel_index w x y) = at_index org_ray_w /\
   vector_get (ray_c_table_ tb) (pixel_index w x y) = at_index ray_c /\
   vector_get (ray_w_table_ tb) (pixel_index w x y) = at_index ray_w) /\
  (i < 0 \/ w * h <= i ->
   vector_get (org_ray_c_table_ tb) (pixel_index w x y) = Raise OutOfRange /\
   vector_get (org_ray_w_table_ tb) (pixel_index w x y) = Raise OutOfRange /\
   vector_get (ray_c_table_ tb) (pixel_index w x y) = Raise OutOfRange /\
   vector_get (ray_w_table_ tb) (pixel_index w x y) = Raise OutOfRange).
Proof.
  intros [(L1 & L2 & L3 & L4) Hpix] Hw Hmax Hrow Hidx i at_index.
  rewrite (pixel_index_linear w x y Hrow Hidx). fold i.
  split.
  - intros Hi.
    assert (0 <= i mod w < w) as Hx0 by (apply Z.mod_pos_bound; exact Hw).
    assert (0 <= i / w < h) as Hy0.
    { split; [apply Z.div_pos; lia |].
      apply Z.div_lt_upper_bound; [exact Hw | lia]. }
    assert (pixel_index w (i mod w) (i / w) = i) as Hsame.
    { rewrite (pixel_index_exact w h) by assumption.
      rewrite (Z.div_mod i w) at 3 by lia. lia. }
    destruct (Hpix (i mod w) (i / w) Hx0 Hy0) as (E1 & E2 & E3 & E4).
    rewrite Hsame in E1, E2, E3, E4. by repeat split.
  - intros Hout.
    assert (forall v : list Vector3f,
               Z.of_nat (length v) = w * h -> vector_get v i = Raise OutOfRange)
      as Hmiss.
    { intros v Hlen. unfold vector_get.
      destruct (Z.ltb_spec i 0); [reflexivity |].
      rewrite lookup_ge_None_2; [reflexivity | lia]. }
    repeat split; by apply Hmiss.
Qed.

(** X16. The discrete accessors check no coordinate: on a camera with
    consistent tables the lookup at [(x, y)] depends on the linear index
    [y * width + x] alone.  An index inside the table yields the ray of
    the pixel [(index mod width, index / width)], so a column beyond the
    right edge silently reads the next row; an index outside the table is
    an access outside the vector. *)
Theorem lookups_use_the_linear_index :
  (forall (c : PinholeCamera.t) (x y : Z),
      let w := PinholeCamera.width c in
      let h := PinholeCamera.height c in
      let i := y * w + x in
      pinhole_consistent c -> 0 < w -> w * h <= int_max ->
      - 2 ^ 31 <= y * w <= int_max -> - 2 ^ 31 <= i <= int_max ->
      (0 <= i < w * h ->
       pinhole_lookups c x y
       = Ok <$> pinhole_values c (IZR (i mod w)) (IZR (i / w))) /\
      (i < 0 \/ w * h <= i ->
       pinhole_lookups c x y = replicate 4 (Raise OutOfRange))) /\
  (forall (c : OrthoCamera.t) (x y : Z),
      let w := OrthoCamera.width c in
      let h := OrthoCamera.height c in
      let i := y * w + x in
      ortho_consistent c -> 0 < w -> w * h <= int_max ->
      - 2 ^ 31 <= y * w <= int_max -> - 2 ^ 31 <= i <= int_max ->
      (0 <= i < w * h ->
       ortho_lookups c x y
       = Ok <$> ortho_values c (IZR (i mod w)) (IZR (i / w))) /\
      (i < 0 \/ w * h <= i ->
       ortho_lookups c x y = replicate 4 (Raise OutOfRange))).
Proof.
  split.
  - intros c x y w h i Hc Hw Hmax Hrow Hidx. subst w h i.
    pose proof (lookup_by_linear_index _ _
                  (PinholeCamera.org_ray_c_f c) (PinholeCamera.org_ray_w_f c)
                  (PinholeCamera.ray_c_f c) (PinholeCamera.ray_w_f c)
                  (PinholeCamera.ray_tables c) x y Hc Hw Hmax Hrow Hidx) as Hlook.
    cbv zeta in Hlook. destruct Hlook as [Hin Hout].
    unfold pinhole_lookups, pinhole_values, PinholeCamera.org_ray_c_i,
      PinholeCamera.org_ray_w_i, PinholeCamera.ray_c_i, PinholeCamera.ray_w_i,
      PinholeCamera.table_index.
    split; intros Hi.
    + destruct (Hin Hi) as (-> & -> & -> & ->). reflexivity.
    + destruct (Hout Hi) as (-> & -> & -> & ->). reflexivity.
  - intros c x y w h i Hc Hw Hmax Hrow Hidx. subst w h i.
    pose proof (lookup_by_linear_index _ _
                  (OrthoCamera.org_ray_c_f c) (OrthoCamera.org_ray_w_f c)
                  (OrthoCamera.ray_c_f c) (OrthoCamera.ray_w_f c)
                  (OrthoCamera.ray_tables c) x y Hc Hw Hmax Hrow Hidx) as Hlook.
    cbv zeta in Hlook. destruct Hlook as [Hin Hout].
    unfold ortho_lookups, ortho_values, OrthoCamera.org_ray_c_i,
      OrthoCamera.org_ray_w_i, OrthoCamera.ray_c_i, OrthoCamera.ray_w_i,
      OrthoCamera.table_index.
    split; intros Hi.
    + destruct (Hin Hi) as (-> & -> & -> & ->). reflexivity.
    + destruct (Hout Hi) as (-> & -> & -> & ->). reflexivity.
Qed.

Lemma lookups_use_the_linear_index_witness :
  exists c,
    OrthoCamera.new_pose 4 2 sample_pose = Ok c /\
    ortho_lookups c 5 0 = Ok <$> ortho_values c 1 1 /\
    ortho_lookups c 0 2 = replicate 4 (Raise OutOfRange).
Proof.
  destruct sample_ortho_built as (c & Hrun & _ & [Hw Hh] & Hc).
  exists c. split; [exact Hrun |].
  destruct lookups_use_the_linear_index as [_ Hortho].
  split.
  - destruct (Hortho c 5 0 Hc) as [Hin _];
      rewrite ?Hw, ?Hh; unfold int_max; try lia.
    rewrite Hw, Hh in Hin. apply Hin. lia.
  - destruct (Hortho c 0 2 Hc) as [_ Hout];
      rewrite ?Hw, ?Hh; unfold int_max; try lia.
    rewrite Hw, Hh in Hout. apply Hout. lia.
Defined.


(** ** Sizes that throw and sizes without pixels *)

Lemma ortho_set_size_negative_product (c : OrthoCamera.t) (w h : Z) :
  - 2 ^ 31 <= w * h < 0 ->
  OrthoCamera.set_size w h c = Raise LengthError.
Proof.
  intros Hwh. unfold OrthoCamera.set_size, OrthoCamera.InitRayTable.
  unfold init_ray_table. cbn [OrthoCamera.width OrthoCamera.height
    OrthoCamera.base Camera.set_size Camera.width_ Camera.height_].
  rewrite wrap_int_small by (unfold int_max; lia).
  unfold vector_resize.
  destruct (Z.ltb_spec (w * h) 0); [reflexivity | lia].
Qed.

(** X17. [set_size] of either camera throws [std::length_error] exactly
    when the product of width and height is negative, and returns normally
    exactly when it is not (the product fitting [int]): a zero or two
    negative extents are accepted, extents of opposite signs are not. *)
Theorem set_size_throws_iff (p : PinholeCamera.t) (o : OrthoCamera.t) (w h : Z) :
  - 2 ^ 31 <= w * h <= int_max ->
  (PinholeCamera.set_size w h p = Raise LengthError <-> w * h < 0) /\
  ((exists p', PinholeCamera.set_size w h p = Ok p') <-> 0 <= w * h) /\
  (OrthoCamera.set_size w h o = Raise LengthError <-> w * h < 0) /\
  ((exists o', OrthoCamera.set_size w h o = Ok o') <-> 0 <= w * h).
Proof.
  intros Hrange.
  destruct (Z.lt_ge_cases (w * h) 0) as [Hneg | Hpos].
  - pose proof (set_size_negative_product p w h) as Hp.
    pose proof (ortho_set_size_negative_product o w h) as Ho.
    rewrite Hp, Ho by lia.
    repeat split; try done; try lia; by intros [? ?].
  - assert (table_size_ok w h) as Hsz by (split; lia).
    destruct (pinhole_mutate_ok (PinholeCamera.SetSize w h) p Hsz)
      as (p' & Hp & _).
    destruct (ortho_mutate_ok (OrthoCamera.SetSize w h) o Hsz)
      as (o' & Ho & _).
    simpl in Hp, Ho. rewrite Hp, Ho.
    repeat split; try done; try lia; eauto.
Qed.

Lemma set_size_throws_iff_witness :
  PinholeCamera.set_size (-2) 3 sample_pinhole = Raise LengthError /\
  exists o', OrthoCamera.set_size (-2) (-3) sample_ortho = Ok o'.
Proof.
  split.
  - destruct (set_size_throws_iff sample_pinhole sample_ortho (-2) 3)
      as (Hthrow & _); [unfold int_max; lia |].
    apply Hthrow. lia.
  - destruct (set_size_throws_iff sample_pinhole sample_ortho (-2) (-3))
      as (_ & _ & _ & Hruns); [unfold int_max; lia |].
    apply Hruns. lia.
Defined.

Lemma init_ray_table_without_pixels (width height : Z)
      (org_ray_c org_ray_w ray_c ray_w : R -> R -> Vector3f) (tb : RayTables) :
  width <= 0 \/ height <= 0 ->
  table_size_ok width height ->
  let n := Z.to_nat (width * height) in
  init_ray_table width height org_ray_c org_ray_w ray_c ray_w tb
  = Ok (tables (resize n Eigen.Zero (org_ray_c_table_ tb))
               (resize n Eigen.Zero (org_ray_w_table_ tb))
               (resize n Eigen.Zero (ray_c_table_ tb))
               (resize n Eigen.Zero (ray_w_table_ tb))).
Proof.
  intros Hdeg [Hlo Hhi] n. unfold init_ray_table.
  rewrite wrap_int_small by (unfold int_max in *; lia).
  unfold vector_resize.
  destruct (Z.ltb_spec (width * height) 0); [lia |].
  cbn [mbind result_bind]. fold n.
  destruct (Z.le_gt_cases height 0) as [Hh | Hh].
  - by rewrite for_range_empty.
  - assert (width <= 0) as Hw by lia.
    set (t0 := tables _ _ _ _).
    destruct (for_range_invariant (fun _ t => t = t0) 0 height
                (fun y => for_range 0 width
                  (fun x => fill_pixel width org_ray_c org_ray_w ray_c ray_w x y))
                t0) as (t' & Hrun & ->); [lia | reflexivity | | exact Hrun].
    intros y t _ ->. exists t0. split; [| reflexivity].
    by rewrite for_range_empty.
Qed.

Lemma resize_prefix_kept (n : nat) (v : list Vector3f) :
  prefix_kept v (resize n Eigen.Zero v).
Proof.
  intros j Hold Hnew. rewrite length_resize in Hnew.
  by apply lookup_resize.
Qed.

(** X18. With a width or a height that is not positive (and a product that
    is a non-negative [int]) [set_size] returns normally, the image has no
    pixel, and the loops write nothing: the tables are only resized to
    [width * height] elements, so that with two negative extents they
    still hold the leading rays of the previous image. *)
Theorem set_size_without_pixels (c : PinholeCamera.t) (w h : Z) :
  w <= 0 \/ h <= 0 ->
  table_size_ok w h ->
  exists c',
    PinholeCamera.set_size w h c = Ok c' /\
    tables_sized w h (PinholeCamera.ray_tables c') /\
    tables_prefix_kept (PinholeCamera.ray_tables c) (PinholeCamera.ray_tables c') /\
    (forall x y : Z,
        ~ (0 <= x < PinholeCamera.width c' /\ 0 <= y < PinholeCamera.height c')).
Proof.
  intros Hdeg Hsz.
  unfold PinholeCamera.set_size, PinholeCamera.InitRayTable.
  cbn [PinholeCamera.width PinholeCamera.height PinholeCamera.base
       PinholeCamera.ray_tables Camera.set_size Camera.width_ Camera.height_].
  rewrite init_ray_table_without_pixels by assumption.
  eexists. split; [reflexivity |].
  cbn [PinholeCamera.ray_tables PinholeCamera.width PinholeCamera.height
       PinholeCamera.base Camera.width_ Camera.height_].
  destruct Hsz as [Hlo Hhi].
  split; [| split].
  - unfold tables_sized. cbn. rewrite !length_resize. lia.
  - repeat split; apply resize_prefix_kept.
  - intros x y. unfold PinholeCamera.width, PinholeCamera.height. simpl. lia.
Qed.

Lemma set_size_without_pixels_witness :
  exists c',
    PinholeCamera.set_size (-2) (-2) sample_pinhole = Ok c' /\
    tables_sized (-2) (-2) (PinholeCamera.ray_tables c').
Proof.
  destruct (set_size_without_pixels sample_pinhole (-2) (-2))
    as (c' & Hrun & Hs & _).
  - left. lia.
  - unfold table_size_ok, int_max. lia.
  - exists c'. split; assumption.
Defined.

(** ** Constructors and histories *)

Lemma pinhole_InitRayTable_consistent (c c' : PinholeCamera.t) :
  PinholeCamera.InitRayTable c = Ok c' ->
  table_size_ok (PinholeCamera.width c') (PinholeCamera.height c') ->
  pinhole_consistent c'.
Proof.
  intros Hrun Hsz.
  destruct (pinhole_InitRayTable_frame c c' Hrun) as (Hb & _).
  unfold PinholeCamera.width, PinholeCamera.height in Hsz. rewrite Hb in Hsz.
  destruct (pinhole_InitRayTable_ok c Hsz) as (c'' & Hrun' & _ & _ & _ & Hc).
  rewrite Hrun in Hrun'. by injection Hrun' as ->.
Qed.

Lemma pinhole_mutate_all_invariants (ms : list PinholeCamera.mutation)
      (c c' : PinholeCamera.t) :
  pinhole_mutate_all ms c = Ok c' ->
  pose_cached (PinholeCamera.base c) ->
  (table_size_ok (PinholeCamera.width c) (PinholeCamera.height c) ->
   pinhole_consistent c) ->
  pose_cached (PinholeCamera.base c') /\
  (table_size_ok (PinholeCamera.width c') (PinholeCamera.height c') ->
   pinhole_consistent c').
Proof.
  revert c. induction ms as [| m ms IH]; intros c Hrun Hpose Hcons.
  - injection Hrun as <-. by split.
  - simpl in Hrun.
    destruct (PinholeCamera.mutate m c) as [c1 | e] eqn:Hm; [| discriminate].
    cbn [mbind result_bind] in Hrun.
    apply (IH c1 Hrun).
    + by apply (pinhole_mutate_pose_cached m c c1).
    + rewrite pinhole_mutate_store in Hm.
      by apply (pinhole_InitRayTable_consistent _ _ Hm).
Qed.

Section Constructors.
Local Open Scope R_scope.

(** X19. A pinhole camera built by the five-argument constructor and then
    taken through any sequence of setter calls, none of which throws, has
    its cached [float] pose equal to its pose, and, its size being one the
    tables can have, tables that agree with the continuous accessors. *)
Theorem constructed_cameras_keep_invariants
        (w h : Z) (a : Affine3d) (pp fl : Vector2f)
        (ms : list PinholeCamera.mutation) (c' : PinholeCamera.t) :
  PinholeCamera.new_full w h a pp fl ≫= pinhole_mutate_all ms = Ok c' ->
  pose_cached (PinholeCamera.base c') /\
  (table_size_ok (PinholeCamera.width c') (PinholeCamera.height c') ->
   pinhole_consistent c').
Proof.
  intros Hrun.
  destruct (PinholeCamera.new_full w h a pp fl) as [c0 | e] eqn:Hnew;
    [| discriminate].
  cbn [mbind result_bind] in Hrun.
  apply (pinhole_mutate_all_invariants ms c0 c' Hrun).
  - apply pinhole_InitRayTable_frame in Hnew as (-> & _).
    apply pose_cached_new_pose.
  - by apply (pinhole_InitRayTable_consistent _ _ Hnew).
Qed.

Lemma constructed_cameras_keep_invariants_witness :
  exists c',
    PinholeCamera.new_full 4 2 sample_pose (vec2 1.5 0.5) (vec2 2 2)
      ≫= pinhole_mutate_all [PinholeCamera.SetFovX 90;
                              PinholeCamera.SetC2w Eigen.Identity]
    = Ok c' /\
    pose_cached (PinholeCamera.base c').
Proof.
  destruct sample_pinhole_built as (c0 & Hrun0 & _ & Hc0).
  assert (table_size_ok (PinholeCamera.width c0) (PinholeCamera.height c0))
    as Hsz0.
  { apply pinhole_InitRayTable_frame in Hrun0 as (Hb & _).
    unfold PinholeCamera.width, PinholeCamera.height. rewrite Hb.
    exact sample_size_ok. }
  destruct (pinhole_mutate_ok (PinholeCamera.SetFovX 90) c0 Hsz0)
    as (c1 & Hrun1 & Hwh1 & _).
  assert (table_size_ok (PinholeCamera.width c1) (PinholeCamera.height c1))
    as Hsz1 by (injection Hwh1 as -> ->; exact Hsz0).
  destruct (pinhole_mutate_ok (PinholeCamera.SetC2w Eigen.Identity) c1 Hsz1)
    as (c2 & Hrun2 & _).
  assert (PinholeCamera.new_full 4 2 sample_pose (vec2 1.5 0.5) (vec2 2 2)
            ≫= pinhole_mutate_all [PinholeCamera.SetFovX 90;
                                    PinholeCamera.SetC2w Eigen.Identity]
          = Ok c2) as Hall.
  { rewrite Hrun0. cbn [mbind result_bind pinhole_mutate_all].
    rewrite Hrun1. cbn [mbind result_bind]. rewrite Hrun2. reflexivity. }
  exists c2. split; [exact Hall |].
  exact (proj1 (constructed_cameras_keep_invariants _ _ _ _ _ _ _ Hall)).
Defined.

(** X20. The constructor that takes a field of view, on a positive size
    and an angle strictly between 0 and 180 degrees, returns a camera of
    that size and pose whose principal point is
    [(width / 2 - 0.5, height / 2 - 0.5)], whose two focal lengths are
    equal, whose [fov_y] is the angle given, and whose tables are
    consistent. *)
Theorem pinhole_new_pose_fov (w h : Z) (a : Affine3d) (deg : R) :
  (0 < w)%Z -> (0 < h)%Z -> table_size_ok w h -> 0 < deg < 180 ->
  exists c,
    PinholeCamera.new_pose_fov w h a deg = Ok c /\
    (PinholeCamera.width c = w /\ PinholeCamera.height c = h) /\
    Camera.c2w (PinholeCamera.base c) = a /\
    PinholeCamera.principal_point c
    = vec2 (IZR w * 0.5 - 0.5) (IZR h * 0.5 - 0.5) /\
    x2 (PinholeCamera.focal_length c) = y2 (PinholeCamera.focal_length c) /\
    PinholeCamera.fov_y c = deg /\
    pinhole_consistent c.
Proof.
  intros Hw Hh Hsz Hdeg. unfold PinholeCamera.new_pose_fov.
  set (c0 := PinholeCamera.mk (Camera.new_pose w h a)
               (vec2 (IZR (Camera.width_ (Camera.new_pose w h a)) * 0.5 - 0.5)
                     (IZR (Camera.height_ (Camera.new_pose w h a)) * 0.5 - 0.5))
               (vec2 0 0) no_tables).
  destruct (pinhole_setter_runs (PinholeCamera.SetFovY deg) c0 Hsz)
    as (c1 & Hrun1).
  cbn [PinholeCamera.mutate] in Hrun1. cbv zeta. fold c0. rewrite Hrun1.
  cbn [mbind result_bind].
  apply pinhole_InitRayTable_frame in Hrun1 as (Hb1 & Hpp1 & Hfl1).
  assert (table_size_ok (PinholeCamera.width c1) (PinholeCamera.height c1))
    as Hsz1.
  { unfold PinholeCamera.width, PinholeCamera.height. rewrite Hb1. exact Hsz. }
  destruct (pinhole_InitRayTable_ok c1 Hsz1)
    as (c2 & Hrun2 & Hb2 & Hpp2 & Hfl2 & Hc2).
  exists c2. split; [exact Hrun2 |].
  unfold PinholeCamera.fov_y, PinholeCamera.width, PinholeCamera.height,
    PinholeCamera.principal_point, PinholeCamera.focal_length.
  rewrite Hb2, Hpp2, Hfl2, Hb1, Hpp1, Hfl1.
  unfold PinholeCamera.height, c0.
  cbn [PinholeCamera.base PinholeCamera.principal_point_
       PinholeCamera.focal_length_ x2 y2].
  change (Camera.width_ (Camera.new_pose w h a)) with w.
  change (Camera.height_ (Camera.new_pose w h a)) with h.
  split; [by split |]. split; [reflexivity |]. split; [reflexivity |].
  split; [reflexivity |]. split; [| exact Hc2].
  by apply fov_of_focal_of_fov.
Qed.

Lemma pinhole_new_pose_fov_witness :
  exists c,
    PinholeCamera.new_pose_fov 4 2 sample_pose 60 = Ok c /\
    PinholeCamera.principal_point c = vec2 (4 * 0.5 - 0.5) (2 * 0.5 - 0.5) /\
    PinholeCamera.fov_y c = 60.
Proof.
  destruct (pinhole_new_pose_fov 4 2 sample_pose 60)
    as (c & Hrun & _ & _ & Hpp & _ & Hfov & _).
  - reflexivity.
  - reflexivity.
  - exact sample_size_ok.
  - lra.
  - exists c. repeat split; assumption.
Defined.
End Constructors.

(** ** World rays and the two frames *)

Section WorldRays.
Local Open Scope R_scope.

Lemma mul_scale_distr (m : Matrix3f) (t : R) (v : Vector3f) :
  Eigen.mul m (Eigen.scale t v) = Eigen.scale t (Eigen.mul m v).
Proof.
  destruct v. unfold Eigen.mul, Eigen.scale. simpl. f_equal; ring.
Qed.

Lemma project_point_on_ray (c : PinholeCamera.t) (x y t : R) :
  x2 (PinholeCamera.focal_length_ c) <> 0 ->
  y2 (PinholeCamera.focal_length_ c) <> 0 ->
  t <> 0 ->
  PinholeCamera.Project2 c (Eigen.scale t (PinholeCamera.ray_c_f c x y))
  = vec2 x y.
Proof.
  intros Hfx Hfy Ht. unfold PinholeCamera.ray_c_f.
  set (a := (x - x2 (PinholeCamera.principal_point_ c))
            / x2 (PinholeCamera.focal_length_ c)).
  set (b := (y - y2 (PinholeCamera.principal_point_ c))
            / y2 (PinholeCamera.focal_length_ c)).
  rewrite normalize_direction.
  pose proof (sqrt_lt_R0 _ (direction_squaredNorm_pos a b)) as Hn.
  fold (Eigen.norm (vec3 a b 1)) in Hn.
  set (n := Eigen.norm (vec3 a b 1)) in *.
  unfold PinholeCamera.Project2, Eigen.scale, Eigen.div. simpl.
  subst a b. f_equal; field; repeat split; lra.
Qed.

Lemma world_ray_back_in_camera (a : Affine3d) (r : Vector3f) (t : R) :
  Eigen.determinant (linear a) <> 0 ->
  transform (Eigen.inverse a)
    (Eigen.add (translation a) (Eigen.scale t (Eigen.mul (linear a) r)))
  = Eigen.scale t r.
Proof.
  intros Hdet. unfold transform, Eigen.inverse. cbn [linear translation].
  rewrite mul_add_distr, mul_scale_distr, inverse3_left by exact Hdet.
  destruct (Eigen.mul (Eigen.inverse3 (linear a)) (translation a)), r.
  unfold Eigen.add, Eigen.scale, Eigen.neg. simpl. f_equal; ring.
Qed.

(** X21. The world ray of a pixel re-projects onto that pixel: for a
    pinhole camera whose pose has an invertible linear part, any point of
    the world-frame ray through [(x, y)] other than its origin, carried
    into the camera frame by [w2c] and projected, is [(x, y)].  The same
    holds for the ray read from the tables at an integer pixel, which is
    what a ray caster starts from. *)
Theorem world_ray_reprojects (c : PinholeCamera.t) (t : R) :
  pose_cached (PinholeCamera.base c) ->
  Camera.w2c (PinholeCamera.base c)
  = Eigen.inverse (Camera.c2w (PinholeCamera.base c)) ->
  Eigen.determinant (linear (Camera.c2w (PinholeCamera.base c))) <> 0 ->
  x2 (PinholeCamera.focal_length c) <> 0 ->
  y2 (PinholeCamera.focal_length c) <> 0 ->
  t <> 0 ->
  let w2c := Camera.w2c (PinholeCamera.base c) in
  (forall x y : R,
      PinholeCamera.Project2 c
        (transform w2c
           (Eigen.add (PinholeCamera.org_ray_w_f c x y)
                      (Eigen.scale t (PinholeCamera.ray_w_f c x y))))
      = vec2 x y) /\
  (pinhole_consistent c ->
   forall x y : Z,
     (0 <= x < PinholeCamera.width c)%Z ->
     (0 <= y < PinholeCamera.height c)%Z ->
     exists org dir,
       PinholeCamera.org_ray_w_i c x y = Ok org /\
       PinholeCamera.ray_w_i c x y = Ok dir /\
       PinholeCamera.Project2 c
         (transform w2c (Eigen.add org (Eigen.scale t dir)))
       = vec2 (IZR x) (IZR y)).
Proof.
  intros (HR & Ht & _) Hinv Hdet Hfx Hfy Hne w2c. subst w2c.
  assert (forall x y : R,
             PinholeCamera.Project2 c
               (transform (Camera.w2c (PinholeCamera.base c))
                  (Eigen.add (PinholeCamera.org_ray_w_f c x y)
                             (Eigen.scale t (PinholeCamera.ray_w_f c x y))))
             = vec2 x y) as Hcont.
  { intros x y.
    unfold PinholeCamera.org_ray_w_f, PinholeCamera.ray_w_f.
    rewrite Hinv, HR, Ht. unfold Camera.c2w in *.
    rewrite world_ray_back_in_camera by exact Hdet.
    by apply project_point_on_ray. }
  split; [exact Hcont |].
  intros [_ Htab] x y Hx Hy.
  destruct (Htab x y Hx Hy) as (_ & Ho & _ & Hd).
  eexists _, _. split; [exact Ho |]. split; [exact Hd |]. apply Hcont.
Qed.

Lemma world_ray_reprojects_witness :
  PinholeCamera.Project2 sample_pinhole
    (transform (Camera.w2c (PinholeCamera.base sample_pinhole))
       (Eigen.add (PinholeCamera.org_ray_w_f sample_pinhole 3 1)
                  (Eigen.scale 7 (PinholeCamera.ray_w_f sample_pinhole 3 1))))
  = vec2 3 1.
Proof.
  refine (proj1 (world_ray_reprojects sample_pinhole 7 _ _ _ _ _ _) 3 1).
  - apply pose_cached_new_pose.
  - reflexivity.
  - unfold Eigen.determinant. simpl. lra.
  - simpl. lra.
  - simpl. lra.
  - lra.
Defined.

Lemma quot_two (n : Z) : 2 * IZR (Z.quot n 2) = IZR n - IZR (Z.rem n 2).
Proof.
  rewrite <- minus_IZR, <- (mult_IZR 2). f_equal.
  pose proof (Z.quot_rem' n 2). lia.
Qed.

(** X22. The two frames of the orthographic camera disagree by the
    truncation of the half-extents: for every size, the world-frame origin
    is the camera-frame origin carried by the pose, moved back by
    [(width rem 2) / 2] along the right axis and by [(height rem 2) / 2]
    along the up axis, that is by half a pixel for each odd extent. *)
Theorem ortho_origin_frames_differ (c : OrthoCamera.t) (x y : R) :
  pose_cached (OrthoCamera.base c) ->
  let pose := Camera.c2w (OrthoCamera.base c) in
  OrthoCamera.org_ray_w_f c x y
  = Eigen.sub (transform pose (OrthoCamera.org_ray_c_f c x y))
      (Eigen.add
         (Eigen.scale (IZR (Z.rem (OrthoCamera.width c) 2) / 2)
                      (Eigen.col (linear pose) 0))
         (Eigen.scale (IZR (Z.rem (OrthoCamera.height c) 2) / 2)
                      (Eigen.col (linear pose) 1))).
Proof.
  intros Hpose pose. subst pose.
  rewrite ortho_org_ray_w_formula by exact Hpose.
  unfold OrthoCamera.org_ray_c_f, transform.
  pose proof (quot_two (OrthoCamera.width c)) as Hw.
  pose proof (quot_two (OrthoCamera.height c)) as Hh.
  set (qw := IZR (Z.quot (OrthoCamera.width c) 2)) in *.
  set (qh := IZR (Z.quot (OrthoCamera.height c) 2)) in *.
  assert (IZR (OrthoCamera.width c) = 2 * qw + IZR (Z.rem (OrthoCamera.width c) 2))
    as -> by lra.
  assert (IZR (OrthoCamera.height c) = 2 * qh + IZR (Z.rem (OrthoCamera.height c) 2))
    as -> by lra.
  destruct (linear (Camera.c2w (OrthoCamera.base c))),
    (translation (Camera.c2w (OrthoCamera.base c))).
  unfold Eigen.sub, Eigen.add, Eigen.mul, Eigen.scale, Eigen.col. simpl.
  f_equal; field.
Qed.

Lemma ortho_origin_frames_differ_witness :
  OrthoCamera.org_ray_w_f sample_ortho 3 1
  = Eigen.sub
      (transform (Camera.c2w (OrthoCamera.base sample_ortho))
                 (OrthoCamera.org_ray_c_f sample_ortho 3 1))
      (Eigen.add
         (Eigen.scale (IZR (Z.rem (OrthoCamera.width sample_ortho) 2) / 2)
            (Eigen.col (linear (Camera.c2w (OrthoCamera.base sample_ortho))) 0))
         (Eigen.scale (IZR (Z.rem (OrthoCamera.height sample_ortho) 2) / 2)
            (Eigen.col (linear (Camera.c2w (OrthoCamera.base sample_ortho))) 1))).
Proof.
  apply (ortho_origin_frames_differ sample_ortho 3 1).
  apply pose_cached_new_pose.
Defined.
End WorldRays.
